(** * Namecoin credential registration: a model of [Namecoin.cpp]

    The development follows the source file top to bottom:
    [NMC_NameManager] (construction, [getNameForNym], [startRegistration],
    [updateName], [timerUpdate]), [NMC_WalletUnlocker::unlock] and
    [NMC_Verifier::verifyCredentialHashAtSource].

    Everything the file calls but does not define (the nmcrpc registry
    client, the OT API, the password dialog, the database handler) is an
    interface, [Externals],
    whose operations act on an abstract outside world and may throw.
    The C++ control flow (sequencing, [try]/[catch] clauses in their order,
    early [return], the iterator loop with [erase]) is written in a small
    state-and-exception monad.  Destructors are left out: the only one with
    an effect, that of the nmcrpc wallet unlocker, acts on the wallet at
    scope exit and on nothing the properties below speak of. *)

From Stdlib Require Import String Ascii List ZArith Bool Arith Lia.
Import ListNotations.
Local Open Scope string_scope.
Local Open Scope list_scope.

Set Implicit Arguments.

(** ** Exceptions

    The exception classes named in the source.  All of them are declared
    (in the nmcrpc headers and in [Namecoin.hpp]) as subclasses of
    [std::runtime_error], so a [catch (const std::exception&)] clause
    takes every one of them. *)
Inductive exn : Type :=
| RpcError (code : Z) (message : string)  (* nmcrpc::JsonRpc::RpcError *)
| JsonParseError (what : string)          (* nmcrpc::JsonRpc::JsonParseError *)
| NameNotFound (what : string)            (* nmcrpc::NamecoinInterface::NameNotFound *)
| NoPrivateKey (what : string)            (* nmcrpc::NamecoinInterface::NoPrivateKey *)
| NmcUnlockFailure (what : string)        (* nmcrpc::NamecoinInterface::UnlockFailure *)
| UnlockFailure (what : string)           (* NMC_WalletUnlocker::UnlockFailure *)
| StdException (what : string).           (* any other std::exception *)

(** What a call yields: a value, or a thrown exception. *)
Inductive result (A : Type) : Type :=
| Ok (a : A)
| Throw (e : exn).
Arguments Ok {A} a.
Arguments Throw {A} e.

(** ** The persisted store

    Modelled from the spec: [DBHandler] ([prepareQuery], [runQuery],
    [queryOne], [queryMultiple]) is not part of the source file.  The table
    [nmc_names] is a list of rows in insertion order with the columns of the
    spec's logical schema, and each SQL statement that appears in the source
    gets its standard meaning on that table when the store accepts it.
    Whether the store accepts a statement, which record [queryOne] yields
    and which records [queryMultiple] hands over are left to the interface
    [Externals] below. *)
Record Row : Type := mkRow {
  name : string;
  nym : string;
  cred : string;
  active : bool;
  regData : option string;
  updateTx : option string
}.

(** The four data-changing statements of the source file. *)
Inductive Stmt : Type :=
| InsertName (n ny c rd : string)
    (* INSERT INTO nmc_names (name, nym, cred, active, regData)
       VALUES (:name, :nym, :cred, 0, :regData) *)
| SetFinished (n : string)
    (* UPDATE nmc_names SET regData = NULL, active = 1 WHERE name = :name *)
| SetRegData (n rd : string)
    (* UPDATE nmc_names SET regData = :regData WHERE name = :name *)
| SetUpdateTx (n txid : string).
    (* UPDATE nmc_names SET updateTx = :txid WHERE name = :name *)

(** [UPDATE ... WHERE name = :name]: every row of that name is rewritten. *)
Definition update_where (n : string) (f : Row -> Row) (t : list Row) : list Row :=
  map (fun r => if name r =? n then f r else r) t.

Definition runStmt (q : Stmt) (t : list Row) : list Row :=
  match q with
  | InsertName n ny c rd => t ++ [mkRow n ny c false (Some rd) None]
  | SetFinished n =>
      update_where n (fun r => mkRow (name r) (nym r) (cred r) true None (updateTx r)) t
  | SetRegData n rd =>
      update_where n
        (fun r => mkRow (name r) (nym r) (cred r) (active r) (Some rd) (updateTx r)) t
  | SetUpdateTx n txid =>
      update_where n
        (fun r => mkRow (name r) (nym r) (cred r) (active r) (regData r) (Some txid)) t
  end.

(** The table after [runQuery] on a statement: a statement the store has
    rejected changes nothing. *)
Definition stored (ok : bool) (q : Stmt) (t : list Row) : list Row :=
  if ok then runStmt q t else t.
Arguments stored : simpl never.

(** [WHERE (regData IS NOT NULL) AND (NOT active)] *)
Definition pending (r : Row) : bool :=
  match regData r with
  | Some _ => negb (active r)
  | None => false
  end.

(** [SELECT regData FROM nmc_names WHERE (regData IS NOT NULL) AND (NOT active)] *)
Definition selectPending (t : list Row) : list Row := filter pending t.

(** [SELECT nym, cred FROM nmc_names WHERE name = :name] *)
Definition selectByName (n : string) (t : list Row) : list Row :=
  filter (fun r => name r =? n) t.

(** ** The outside world

    The registry client ([nmcrpc::NamecoinInterface], [NameRegistration],
    [NameUpdate], [WalletUnlocker]), the OT API, the password dialog, and
    what [DBHandler] decides.  [Ext] is the state of all of it (node,
    wallet, the user at the dialog, the database engine); a call that
    reaches it takes that state and gives the next one.  Observers of an
    object already held in memory are pure. *)
Class Externals : Type := {
  Ext : Type;
  Reg : Type;       (* nmcrpc::NameRegistration *)
  Name : Type;      (* nmcrpc::NamecoinInterface::Name *)
  Address : Type;   (* nmcrpc::NamecoinInterface::Address *)
  JsonData : Type;  (* nmcrpc::JsonRpc::JsonData *)

  (* NameRegistration *)
  reg_getName : Reg -> string;
  reg_write : Reg -> string;                    (* out << reg *)
  reg_read : string -> result Reg;              (* in >> reg, on a fresh object *)
  reg_registerName : Name -> Ext -> result Reg * Ext;
  reg_canActivate : Reg -> Ext -> result bool * Ext;
  reg_isFinished : Reg -> Ext -> result bool * Ext;
  reg_activate : Reg -> Ext -> result Reg * Ext;

  (* NamecoinInterface *)
  nc_queryName : string -> string -> Ext -> result Name * Ext;
  nc_queryAddress : string -> Ext -> result Address * Ext;
  nc_needWalletPassphrase : Ext -> result bool * Ext;

  (* Name *)
  name_getName : Name -> string;
  name_getJsonValue : Name -> result JsonData;
  name_getAddress : Name -> result Address;

  (* Address *)
  addr_isValid : Address -> bool;
  addr_isMine : Address -> bool;
  addr_getAddress : Address -> string;
  addr_signMessage : Address -> string -> Ext -> result string * Ext;
  addr_verifySignature : Address -> string -> string -> Ext -> result bool * Ext;

  (* JsonData *)
  json_index : JsonData -> string -> JsonData;  (* val[key] *)
  json_isString : JsonData -> bool;
  json_asString : JsonData -> string;

  (* NameUpdate: setValue followed by execute *)
  upd_execute : Name -> string -> Address -> Ext -> result string * Ext;

  (* nmcrpc WalletUnlocker::unlock, the underlying unlock primitive *)
  wallet_unlock : string -> Ext -> result unit * Ext;

  (* OTAPI_Wrap::GetNym_SourceForID *)
  otapi_GetNym_SourceForID : string -> Ext -> result string * Ext;

  (* MTDlgPassword::exec with the passphrase typed: return code 0 is
     cancel or closing the window, 1 is ok *)
  dlg_exec : Ext -> (Z * string) * Ext;

  (* DBHandler::runQuery, given the statement and the table: whether the
     store accepts the statement (the return value of runQuery) *)
  db_runQuery : Stmt -> list Row -> Ext -> bool * Ext;

  (* DBHandler::queryOne, given the rows the SELECT matches *)
  db_queryOne : list Row -> result Row;

  (* DBHandler::queryMultiple, given the rows the SELECT matches: the
     records handed to the callback, in the order they are handed over *)
  db_queryMultiple : list Row -> list Row
}.

(** Namespace used for Namecoin credentials. *)
Definition NMC_NS : string := "ot".

Section Model.

Context {X : Externals}.

(** One streamed item of a [qDebug ()] or [std::cout] line. *)
Inductive item : Type :=
| str (s : string)
| num (z : Z)
| exc (e : exn).   (* exc.what () or exc.getErrorMessage () *)

(** What the program does that is visible from outside, newest first:
    output lines, calls to the outside world with their outcome, and
    statements run on the store.  [EvUpdateName] marks an entry into
    [updateName]; it has no effect and only lets invocations be counted. *)
Inductive Event : Type :=
| EvDebug (line : list item)
| EvQueryName (ns key : string) (res : result Name)
| EvQueryAddress (a : string) (res : result Address)
| EvNeedWalletPassphrase (res : result bool)
| EvDlgExec (code : Z) (pwd : string)
| EvWalletUnlock (pwd : string) (res : result unit)
| EvRegisterName (nm : Name) (res : result Reg)
| EvCanActivate (r : Reg) (res : result bool)
| EvIsFinished (r : Reg) (res : result bool)
| EvActivate (r : Reg) (res : result Reg)
| EvSignMessage (a : Address) (msg : string) (res : result string)
| EvVerifySignature (a : Address) (msg sig : string) (res : result bool)
| EvExecute (nm : Name) (value : string) (a : Address) (res : result string)
| EvGetNymSource (ny : string) (res : result string)
| EvRunQuery (q : Stmt) (ok : bool)
| EvQueryOne (n : string) (res : result Row)
| EvUpdateName (ny c : string).

Record State : Type := mkState {
  ext : Ext;
  db : list Row;
  trace : list Event
}.

(** ** The monad: state, exceptions, and fuel for the one unbounded
    recursion ([unlock] retrying after a wrong passphrase).  [None] means the
    fuel ran out. *)
Definition M (A : Type) : Type := State -> option (result A * State).

Definition ret {A} (a : A) : M A := fun s => Some (Ok a, s).

Definition bind {A B} (m : M A) (k : A -> M B) : M B :=
  fun s =>
    match m s with
    | None => None
    | Some (Ok a, s') => k a s'
    | Some (Throw e, s') => Some (Throw e, s')
    end.

Definition throw {A} (e : exn) : M A := fun s => Some (Throw e, s).

(** [try { m } catch ...]: [h e] is the body of the first clause that takes
    [e], or [None] when no clause does and [e] propagates.  An exception
    thrown by a clause's body is not offered to the sibling clauses. *)
Definition try_catch {A} (m : M A) (h : exn -> option (M A)) : M A :=
  fun s =>
    match m s with
    | Some (Throw e, s') =>
        match h e with
        | Some k => k s'
        | None => Some (Throw e, s')
        end
    | r => r
    end.

Definition emit (ev : Event) : M unit :=
  fun s => Some (Ok tt, mkState (ext s) (db s) (ev :: trace s)).

(** A call to the outside world, recorded with its outcome. *)
Definition extern {A} (f : Ext -> result A * Ext) (ev : result A -> Event) : M A :=
  fun s =>
    let (r, e') := f (ext s) in
    Some (r, mkState e' (db s) (ev r :: trace s)).

(** A call on an object held in memory. *)
Definition pure_call {A} (r : result A) : M A := fun s => Some (r, s).

Definition qDebug (line : list item) : M unit := emit (EvDebug line).

(** [runQuery] returns whether the statement was accepted; it does not
    throw. *)
Definition runQuery (q : Stmt) : M bool :=
  fun s =>
    let (ok, e') := db_runQuery q (db s) (ext s) in
    Some (Ok ok, mkState e' (stored ok q (db s)) (EvRunQuery q ok :: trace s)).

Definition queryOne (n : string) : M Row :=
  fun s =>
    let r := db_queryOne (selectByName n (db s)) in
    Some (r, mkState (ext s) (db s) (EvQueryOne n r :: trace s)).

End Model.

Declare Scope m_scope.
Notation "x <- m ;; k" := (bind m (fun x => k))
  (at level 100, m at next level, right associativity) : m_scope.
Notation "m ;; k" := (bind m (fun _ => k))
  (at level 100, right associativity) : m_scope.

Local Open Scope m_scope.

Section Program.

Context {X : Externals}.

(** [dlg.exec ()] followed, on ok, by [dlg.extractPassword ()] and
    [otPwd.getPassword ()]. *)
Definition dialog : M (Z * string) :=
  fun s =>
    let (p, e') := dlg_exec (ext s) in
    Some (Ok p, mkState e' (db s) (EvDlgExec (fst p) (snd p) :: trace s)).

(** [DBHandler::queryMultiple] with the constructor's query: the records
    handed to the callback, one by one. *)
Definition queryMultiple : M (list Row) :=
  fun s => Some (Ok (db_queryMultiple (selectPending (db s))), s).

(** ** NMC_WalletUnlocker::unlock

    Returning normally is the spec's [Unlocked], throwing this class's
    [UnlockFailure] is its [Cancelled]. *)
Fixpoint unlock (fuel : nat) : M unit :=
  match fuel with
  | O => fun _ => None
  | S fuel' =>
      qDebug [str "Trying to unlock the Namecoin wallet."];;
      need <- extern nc_needWalletPassphrase EvNeedWalletPassphrase;;
      pwd <- (if need : bool then
                p <- dialog;;
                if (fst p =? 0)%Z then
                  qDebug [str "Wallet unlock was cancelled."];;
                  throw (UnlockFailure "Wallet unlock was cancelled.")
                else ret (snd p)
              else ret "");;
      try_catch
        (extern (wallet_unlock pwd) (EvWalletUnlock pwd);;
         qDebug [str "Unlock successful (or not necessary)."])
        (fun e =>
           match e with
           | NmcUnlockFailure _ =>
               Some (qDebug [str "Wrong passphrase, retrying."];;
                     unlock fuel')
           | RpcError c m =>
               Some (qDebug [str "NMC RPC Error "; num c; str ": "; str m])
           | _ => Some (qDebug [str "Error: "; exc e])
           end)
  end.

(** The callers' [try { unlocker.unlock (); } catch (UnlockFailure) { ...;
    return; }]: [true] when the caller goes on, [false] when it returns. *)
Definition unlock_or_return (fuel : nat) (line : list item) : M bool :=
  try_catch (unlock fuel;; ret true)
    (fun e =>
       match e with
       | UnlockFailure _ => Some (qDebug line;; ret false)
       | _ => None
       end).

(** ** NMC_NameManager *)

(** The constructor: [pendingRegs] starts empty and the callback
    [addPendingReg] appends one registration per record.  Neither the
    callback nor the constructor has a [try] block: an exception from
    [in >> reg] leaves the constructor. *)
Fixpoint addPendingRegs (recs : list Row) (pendingRegs : list Reg) : M (list Reg) :=
  match recs with
  | [] => ret pendingRegs
  | rec :: rest =>
      let val := match regData rec with Some v => v | None => "" end in
      reg <- pure_call (reg_read val);;
      qDebug [str "  "; str (reg_getName reg)];;
      addPendingRegs rest (pendingRegs ++ [reg])
  end.

Definition NMC_NameManager_new : M (list Reg) :=
  qDebug [str "Loading pending name registrations:"];;
  recs <- queryMultiple;;
  addPendingRegs recs [].

Definition getNameForNym (ny c : string) : M Name :=
  extern (nc_queryName NMC_NS c) (EvQueryName NMC_NS c).

(** The catch clauses shared by [startRegistration] and the loop of
    [timerUpdate]: [RpcError] first, then [std::exception]. *)
Definition log_and_swallow {A} (a : A) (e : exn) : option (M A) :=
  match e with
  | RpcError _ m => Some (qDebug [str "NMC RPC Error: "; str m];; ret a)
  | _ => Some (qDebug [str "Error: "; exc e];; ret a)
  end.

(** [startRegistration]: takes [pendingRegs] and returns it as the call
    leaves it.  The value [runQuery] returns is dropped, here and at its
    other three calls. *)
Definition startRegistration (fuel : nat) (ny c : string)
    (pendingRegs : list Reg) : M (list Reg) :=
  qDebug [str "Registering "; str ny; str " with credentials "; str c;
          str " on the Namecoin blockchain."];;
  try_catch
    (nm <- getNameForNym ny c;;
     go <- unlock_or_return fuel [str "Unlock failed."];;
     if go : bool then
       reg <- extern (reg_registerName nm) (EvRegisterName nm);;
       runQuery (InsertName (name_getName nm) ny c (reg_write reg));;
       ret (pendingRegs ++ [reg])
     else ret pendingRegs)
    (log_and_swallow pendingRegs).

(** [updateName].  Constructing [upd] from [nm] is taken not to throw;
    [upd.setValue] and [upd.execute] are the one call [upd_execute]. *)
Definition updateName (ny c : string) : M bool :=
  emit (EvUpdateName ny c);;
  addrStr <- extern (otapi_GetNym_SourceForID ny) (EvGetNymSource ny);;
  addr <- extern (nc_queryAddress addrStr) (EvQueryAddress addrStr);;
  if negb (addr_isValid addr) || negb (addr_isMine addr) then
    qDebug [str "Nym source "; str addrStr;
            str " is not a valid Namecoin address, or it is not owned by you."];;
    ret false
  else
    nm <- getNameForNym ny c;;
    need <- extern nc_needWalletPassphrase EvNeedWalletPassphrase;;
    if need : bool then
      qDebug [str "Wallet should be unlocked already for updateName(),";
              str " but is not."];;
      ret false
    else
      value <- extern (addr_signMessage addr c) (EvSignMessage addr c);;
      try_catch
        (txid <- extern (upd_execute nm value addr) (EvExecute nm value addr);;
         runQuery (SetUpdateTx (name_getName nm) txid);;
         ret true)
        (fun e =>
           match e with
           | NoPrivateKey _ =>
               Some (qDebug [str "Name cannot be updated, as you don't own the private key."];;
                     ret false)
           | _ => None
           end).

(** First loop of [timerUpdate]: does any entry need the wallet?  The
    loop visits every entry; [||] skips [isFinished] when [canActivate]
    is true. *)
Fixpoint scanPending (entries : list Reg) (needUnlock : bool) : M bool :=
  match entries with
  | [] => ret needUnlock
  | entry :: rest =>
      can <- extern (reg_canActivate entry) (EvCanActivate entry);;
      hit <- (if can : bool then ret true
              else extern (reg_isFinished entry) (EvIsFinished entry));;
      scanPending rest (if hit : bool then true else needUnlock)
  end.

(** The unlock step of [timerUpdate]: [false] is its early [return]. *)
Definition unlockIfNeeded (fuel : nat) (needUnlock : bool) : M bool :=
  if needUnlock then
    qDebug [str "Need to unlock the wallet, trying to do it."];;
    unlock_or_return fuel [str "Unlock failed, cancelling the timer update."]
  else
    qDebug [str "No operations necessary that need an unlocked wallet."];;
    ret true.

(** The [try] block of the second loop, for the entry [*i].  [None]:
    the entry was erased ([i = pendingRegs.erase (i); continue;]);
    [Some r]: it stays, as [r], and the loop moves on with [++i]. *)
Definition processBinding (i : Reg) : M (option Reg) :=
  fin <- extern (reg_isFinished i) (EvIsFinished i);;
  if fin : bool then
    qDebug [str "Registration finished for "; str (reg_getName i)];;
    runQuery (SetFinished (reg_getName i));;
    rec <- queryOne (reg_getName i);;
    success <- updateName (nym rec) (cred rec);;
    qDebug [str (if success : bool then "Issued name_update successfully."
                 else "name_update failed.")];;
    ret None
  else
    can <- extern (reg_canActivate i) (EvCanActivate i);;
    if can : bool then
      qDebug [str "Activating "; str (reg_getName i)];;
      i' <- extern (reg_activate i) (EvActivate i);;
      runQuery (SetRegData (reg_getName i') (reg_write i'));;
      ret (Some i')
    else ret (Some i).

(** One iteration of the second loop.  Nothing that follows [activate]
    in the [try] block throws here, so a caught exception finds the entry
    as it was. *)
Definition tryBinding (i : Reg) : M (option Reg) :=
  try_catch (processBinding i) (log_and_swallow (Some i)).

(** The second loop: every entry once, in order. *)
Fixpoint advanceAll (entries : list Reg) : M (list Reg) :=
  match entries with
  | [] => ret []
  | i :: rest =>
      kept <- tryBinding i;;
      rest' <- advanceAll rest;;
      ret (match kept with Some i' => i' :: rest' | None => rest' end)
  end.

(** Everything of [timerUpdate] before the second loop. *)
Definition tickPrefix (fuel : nat) (pendingRegs : list Reg) : M bool :=
  qDebug [str "Namecoin update timer called."];;
  needUnlock <- scanPending pendingRegs false;;
  unlockIfNeeded fuel needUnlock.

(** [timerUpdate]: takes [pendingRegs] and returns it as the call leaves
    it. *)
Definition timerUpdate (fuel : nat) (pendingRegs : list Reg) : M (list Reg) :=
  go <- tickPrefix fuel pendingRegs;;
  if go : bool then advanceAll pendingRegs else ret pendingRegs.

(** ** NMC_Verifier::verifyCredentialHashAtSource ([verbose] is [true]) *)
Definition verifyCredentialHashAtSource (hash source : string) : M bool :=
  qDebug [str "Verifying credential hash to Namecoin source: ";
          str "  "; str hash; str "  "; str source];;
  nm <- extern (nc_queryName NMC_NS hash) (EvQueryName NMC_NS hash);;
  try_catch
    (val <- pure_call (name_getJsonValue nm);;
     let sigval := json_index val "nmcsig" in
     if negb (json_isString sigval) then
       qDebug [str "'nmcsig' field is not present or no string."];;
       ret false
     else
       let sig := json_asString sigval in
       addr <- pure_call (name_getAddress nm);;
       if negb (source =? addr_getAddress addr) then
         qDebug [str "Address of name is not Nym source."];;
         ret false
       else
         extern (addr_verifySignature addr hash sig)
                (EvVerifySignature addr hash sig))
    (fun e =>
       match e with
       | NameNotFound _ => Some (qDebug [str "The name does not exist."];; ret false)
       | JsonParseError _ =>
           Some (qDebug [str "The name doesn't hold valid JSON data."];; ret false)
       | _ => None
       end).

End Program.

(** ** A scripted outside world

    A small stand-in for the registry client, the wallet and the user, on
    which the model runs by computation.  Its behaviour is fixed by a few
    switches: whether the wallet is locked, what the user answers at each
    prompt, which names have their pending transaction confirmed, which
    calls fail, and whether the store takes statements. *)
Module Sim.

Record SReg : Type := mkSReg { sr_name : string; sr_activated : bool }.

(** JSON values, as far as the verifier looks into them: the fields of an
    object are strings or numbers. *)
Inductive SField : Type :=
| FStr (s : string)
| FNum (z : Z).

Inductive SJson : Type :=
| JNull
| JStr (s : string)
| JNum (z : Z)
| JObj (fields : list (string * SField)).

(** A registry entry: its value ([None] when it is not valid JSON) and the
    address holding the name. *)
Definition SEntry : Type := (option SJson * string)%type.

Record SName : Type := mkSName { sn_name : string; sn_entry : option SEntry }.

Record SAddress : Type := mkSAddress {
  sa_addr : string;
  sa_valid : bool;
  sa_mine : bool
}.

Record World : Type := mkWorld {
  locked : bool;
  passphrase : string;
  prompts : list (Z * string);      (* the user's answer at each next prompt *)
  unlock_fault : option exn;        (* failure of the unlock call itself *)
  confirmed : list string;          (* names whose last transaction is confirmed *)
  ready_fault : option exn;         (* failure of the readiness queries *)
  address_fault : option exn;       (* failure of the address query *)
  update_fault : option exn;        (* failure of name_update *)
  entries : list (string * SEntry);
  sources : list (string * string); (* nym, source address *)
  mine : list string;               (* addresses of the wallet *)
  store_down : bool                 (* the store rejects every statement *)
}.

Fixpoint assoc {A} (k : string) (l : list (string * A)) : option A :=
  match l with
  | [] => None
  | (k', v) :: rest => if k' =? k then Some v else assoc k rest
  end.

Definition mem (k : string) (l : list string) : bool :=
  existsb (String.eqb k) l.

Definition fail_or {A} (fault : option exn) (r : A) (w : World) : result A * World :=
  match fault with
  | Some e => (Throw e, w)
  | None => (Ok r, w)
  end.

Definition sign (addr msg : string) : string :=
  String.append "sig:" (String.append addr (String.append ":" msg)).

Definition full_name (ns key : string) : string :=
  String.append ns (String.append "/" key).

Definition write (r : SReg) : string :=
  String (if sr_activated r then "A" else "R")%char (sr_name r).

Definition read (s : string) : result SReg :=
  match s with
  | EmptyString => Throw (JsonParseError "no registration")
  | String c n => Ok (mkSReg n (Ascii.eqb c "A"))
  end.

(** The unlock primitive: a wrong passphrase for a locked wallet is
    reported as such; otherwise the call fails if it is set to fail, and
    opens the wallet if not. *)
Definition unlock_wallet (pwd : string) (w : World) : result unit * World :=
  if locked w && negb (pwd =? passphrase w) then
    (Throw (NmcUnlockFailure "wrong passphrase"), w)
  else
    match unlock_fault w with
    | Some e => (Throw e, w)
    | None =>
        (Ok tt,
         mkWorld false (passphrase w) (prompts w) (unlock_fault w) (confirmed w)
                 (ready_fault w) (address_fault w) (update_fault w) (entries w)
                 (sources w) (mine w) (store_down w))
    end.

Definition prompt (w : World) : (Z * string) * World :=
  match prompts w with
  | [] => ((0%Z, ""), w)
  | p :: rest =>
      (p,
       mkWorld (locked w) (passphrase w) rest (unlock_fault w) (confirmed w)
               (ready_fault w) (address_fault w) (update_fault w) (entries w)
               (sources w) (mine w) (store_down w))
  end.

Definition index (v : SJson) (k : string) : SJson :=
  match v with
  | JObj fields =>
      match assoc k fields with
      | Some (FStr s) => JStr s
      | Some (FNum z) => JNum z
      | None => JNull
      end
  | _ => JNull
  end.

Definition one_row (rows : list Row) : result Row :=
  match rows with
  | [r] => Ok r
  | _ => Throw (StdException "expected exactly one record")
  end.

Definition sim : Externals := {|
  Ext := World;
  Reg := SReg;
  Name := SName;
  Address := SAddress;
  JsonData := SJson;
  reg_getName := sr_name;
  reg_write := write;
  reg_read := read;
  reg_registerName := fun nm w => (Ok (mkSReg (sn_name nm) false), w);
  reg_canActivate := fun r w =>
    fail_or (ready_fault w) (negb (sr_activated r) && mem (sr_name r) (confirmed w)) w;
  reg_isFinished := fun r w =>
    fail_or (ready_fault w) (sr_activated r && mem (sr_name r) (confirmed w)) w;
  reg_activate := fun r w => (Ok (mkSReg (sr_name r) true), w);
  nc_queryName := fun ns key w =>
    (Ok (mkSName (full_name ns key) (assoc (full_name ns key) (entries w))), w);
  nc_queryAddress := fun a w =>
    fail_or (address_fault w) (mkSAddress a true (mem a (mine w))) w;
  nc_needWalletPassphrase := fun w => (Ok (locked w), w);
  name_getName := sn_name;
  name_getJsonValue := fun nm =>
    match sn_entry nm with
    | None => Throw (NameNotFound "name not found")
    | Some (None, _) => Throw (JsonParseError "no JSON")
    | Some (Some v, _) => Ok v
    end;
  name_getAddress := fun nm =>
    match sn_entry nm with
    | None => Throw (NameNotFound "name not found")
    | Some (_, a) => Ok (mkSAddress a true false)
    end;
  addr_isValid := sa_valid;
  addr_isMine := sa_mine;
  addr_getAddress := sa_addr;
  addr_signMessage := fun a msg w => (Ok (sign (sa_addr a) msg), w);
  addr_verifySignature := fun a msg sig w => (Ok (sig =? sign (sa_addr a) msg), w);
  json_index := index;
  json_isString := fun v => match v with JStr _ => true | _ => false end;
  json_asString := fun v => match v with JStr s => s | _ => "" end;
  upd_execute := fun nm value a w =>
    fail_or (update_fault w) (String.append "tx:" (sn_name nm)) w;
  wallet_unlock := unlock_wallet;
  otapi_GetNym_SourceForID := fun ny w =>
    (Ok (match assoc ny (sources w) with Some a => a | None => "" end), w);
  dlg_exec := prompt;
  db_runQuery := fun _ _ w => (negb (store_down w), w);
  db_queryOne := one_row;
  db_queryMultiple := fun rows => rows
|}.

(** A quiet world: wallet open, nothing confirmed, nothing failing. *)
Definition calm : World :=
  mkWorld false "secret" [] None [] None None None [] [("N1", "addr1")] ["addr1"] false.

Definition start (w : World) (t : list Row) : State (X := sim) := mkState (X := sim) w t [].

End Sim.

(** * Notions used to state the properties *)

(** The names of the rows that the constructor's query selects, in the
    order of the table. *)
Definition pending_names (t : list Row) : list string :=
  map name (selectPending t).

Section Notions.

Context {X : Externals}.

(** The statements among [new] (newest first), applied oldest first,
    each as the store took it. *)
Definition replay (new : list Event) (t : list Row) : list Row :=
  fold_right
    (fun ev acc => match ev with EvRunQuery q ok => stored ok q acc | _ => acc end)
    t new.

Definition extends (Q : Event -> Prop) (s s' : State) : Prop :=
  exists new,
    trace s' = new ++ trace s /\ Forall Q new /\ db s' = replay new (db s).

Definition only {A} (Q : Event -> Prop) (m : M A) : Prop :=
  forall s r s', m s = Some (r, s') -> extends Q s s'.

(** No statement was run, accepted or not. *)
Definition no_query (ev : Event) : Prop :=
  match ev with EvRunQuery _ _ => False | _ => True end.

(** Every statement run among [new] was accepted by the store. *)
Definition accepted (new : list Event) : Prop :=
  forall q, ~ In (EvRunQuery q false) new.

(** [m] yields a result, normal or exceptional, from every state. *)
Definition returns {A} (m : M A) : Prop :=
  forall s, exists r s', m s = Some (r, s').

(** [m] returns normally from every state. *)
Definition safe {A} (m : M A) : Prop :=
  forall s, exists a s', m s = Some (Ok a, s').

(** Whatever result [m] reaches, [m'] reaches too. *)
Definition at_least {A} (m m' : M A) : Prop :=
  forall s x, m s = Some x -> m' s = Some x.

(** Events of the unlock step: output, the wallet-state query, the prompt,
    the unlock primitive. *)
Definition unlock_ev (ev : Event) : Prop :=
  match ev with
  | EvDebug _ | EvNeedWalletPassphrase _ | EvDlgExec _ _ | EvWalletUnlock _ _ => True
  | _ => False
  end.

(** Events of the first loop of [timerUpdate]: the readiness queries. *)
Definition ready_ev (ev : Event) : Prop :=
  match ev with
  | EvCanActivate _ _ | EvIsFinished _ _ => True
  | _ => False
  end.

(** Events of [timerUpdate] before its second loop: those of the unlock
    step and the readiness queries. *)
Definition prefix_ev (ev : Event) : Prop :=
  match ev with
  | EvDebug _ | EvNeedWalletPassphrase _ | EvDlgExec _ _ | EvWalletUnlock _ _
  | EvCanActivate _ _ | EvIsFinished _ _ => True
  | _ => False
  end.

(** Events of the second loop: no prompt and no unlock among them. *)
Definition advance_ev (ev : Event) : Prop :=
  match ev with
  | EvDlgExec _ _ | EvWalletUnlock _ _ | EvRegisterName _ _
  | EvVerifySignature _ _ _ _ => False
  | _ => True
  end.


(** Events of the verifier. *)
Definition verify_ev (ev : Event) : Prop :=
  match ev with
  | EvDebug _ | EvQueryName _ _ _ | EvVerifySignature _ _ _ _ => True
  | _ => False
  end.

(** The line [unlock] prints for a failure of the unlock primitive that is
    not a wrong passphrase. *)
Definition failure_line (e : exn) : list item :=
  match e with
  | RpcError c m => [str "NMC RPC Error "; num c; str ": "; str m]
  | _ => [str "Error: "; exc e]
  end.

Definition wrong_secret (e : exn) : bool :=
  match e with NmcUnlockFailure _ => true | _ => false end.

(** What [unlock] prints last when the unlock primitive has returned or
    failed otherwise than by a wrong passphrase. *)
Definition outcome_line (r : result unit) : list item :=
  match r with
  | Ok _ => [str "Unlock successful (or not necessary)."]
  | Throw e => failure_line e
  end.

(** The state after a line of output. *)
Definition after_line (line : list item) (s : State) : State :=
  mkState (ext s) (db s) (EvDebug line :: trace s).

(** The part of [unlock] before its [try] block (lines 353 to 378): the
    passphrase to hand to the unlock primitive, empty when the wallet needs
    none. *)
Definition askPassphrase : M string :=
  qDebug [str "Trying to unlock the Namecoin wallet."];;
  need <- extern nc_needWalletPassphrase EvNeedWalletPassphrase;;
  if need : bool then
    p <- dialog;;
    if (fst p =? 0)%Z then
      qDebug [str "Wallet unlock was cancelled."];;
      throw (UnlockFailure "Wallet unlock was cancelled.")
    else ret (snd p)
  else ret "".

(** The state after the unlock primitive, called with [pwd] in the state
    [s1], has thrown [e] (leaving the outside world as [e2]) and the [catch]
    clause that takes [e] has printed its line. *)
Definition after_failed_unlock (pwd : string) (e : exn) (e2 : Ext) (s1 : State) : State :=
  mkState e2 (db s1)
    (EvDebug (match e with
              | NmcUnlockFailure _ => [str "Wrong passphrase, retrying."]
              | _ => failure_line e
              end) ::
     EvWalletUnlock pwd (Throw e) :: trace s1).

(** [retried k s s']: from [s], [k] rounds of [unlock] in a row end with
    the unlock primitive reporting a wrong passphrase, and [s'] is the state
    in which the next round begins. *)
Inductive retried : nat -> State -> State -> Prop :=
| retried_O s : retried 0 s s
| retried_S k s pwd s1 what e2 s' :
    askPassphrase s = Some (Ok pwd, s1) ->
    wallet_unlock pwd (ext s1) = (Throw (NmcUnlockFailure what), e2) ->
    retried k (after_failed_unlock pwd (NmcUnlockFailure what) e2 s1) s' ->
    retried (S k) s s'.

(** Entries into [updateName] among events. *)
Definition is_updateName (ev : Event) : bool :=
  match ev with EvUpdateName _ _ => true | _ => false end.

(** What one turn of the second loop leaves at the entry's place. *)
Definition kept_list (kept : option Reg) : list Reg :=
  match kept with
  | Some i => [i]
  | None => []
  end.

(** The state in which [timerUpdate] calls [updateName] for a finished
    entry [i]: [isFinished] has answered true, the statement that marks the
    rows has been run (taken by the store or not, [ok], leaving the outside
    world as [e2]), and the lookup has given [rec]. *)
Definition after_lookup (i : Reg) (e2 : Ext) (ok : bool) (rec : Row) (s : State) : State :=
  mkState e2 (stored ok (SetFinished (reg_getName i)) (db s))
    (EvQueryOne (reg_getName i) (Ok rec) ::
     EvRunQuery (SetFinished (reg_getName i)) ok ::
     EvDebug [str "Registration finished for "; str (reg_getName i)] ::
     EvIsFinished i (Ok true) :: trace s).

(** What each [UPDATE ... WHERE name = :name] of the source makes of one
    row: [SET regData = NULL, active = 1], [SET regData = :regData] and
    [SET updateTx = :txid]. *)
Definition marked_finished (n : string) (row : Row) : Row :=
  if name row =? n
  then mkRow (name row) (nym row) (cred row) true None (updateTx row)
  else row.

Definition with_payload (n rd : string) (row : Row) : Row :=
  if name row =? n
  then mkRow (name row) (nym row) (cred row) (active row) (Some rd) (updateTx row)
  else row.

Definition with_tx (n txid : string) (row : Row) : Row :=
  if name row =? n
  then mkRow (name row) (nym row) (cred row) (active row) (regData row) (Some txid)
  else row.

(** The ledger holds, in order, one entry for each row that has a
    registration payload and is not active, under that row's name. *)
Definition ledger_matches (pendingRegs : list Reg) (t : list Row) : Prop :=
  map reg_getName pendingRegs = pending_names t.

(** The text the constructor reads a registration from. *)
Definition payload (rec : Row) : string :=
  match regData rec with
  | Some v => v
  | None => ""
  end.


(** An exception raised while the entry [i] is processed from [s] leaves
    the store as it was: nothing throws after a statement has run. *)
Definition fails_before_store (i : Reg) (s : State) : Prop :=
  forall e s1, processBinding i s = Some (Throw e, s1) -> db s1 = db s.

(** The same for every entry of the second loop, each from the state in
    which the loop reaches it. *)
Fixpoint all_fail_before_store (entries : list Reg) (s : State) : Prop :=
  match entries with
  | [] => True
  | i :: rest =>
      fails_before_store i s /\
      forall kept s1,
        tryBinding i s = Some (Ok kept, s1) -> all_fail_before_store rest s1
  end.

End Notions.

(** * Further notions, for the properties beyond the claims *)
Section MoreNotions.

Context {X : Externals}.

(** Neither a prompt nor a call of the unlock primitive. *)
Definition no_prompt_ev (ev : Event) : Prop :=
  match ev with
  | EvDlgExec _ _ | EvWalletUnlock _ _ => False
  | _ => True
  end.

(** Events of a tick, as far as the store goes: no row is inserted. *)
Definition tick_ev (ev : Event) : Prop :=
  match ev with
  | EvRunQuery (InsertName _ _ _ _) _ => False
  | EvRegisterName _ _ => False
  | _ => True
  end.

(** Events of [updateName] before it signs: nothing is signed, nothing is
    executed, no statement is run. *)
Definition before_signing_ev (ev : Event) : Prop :=
  match ev with
  | EvSignMessage _ _ _ | EvExecute _ _ _ _ | EvRunQuery _ _
  | EvDlgExec _ _ | EvWalletUnlock _ _ => False
  | _ => True
  end.

(** Events of [updateName]: its calls to the outside, its output and the
    one statement that writes the transaction id. *)
Definition update_ev (ev : Event) : Prop :=
  match ev with
  | EvDebug _ | EvUpdateName _ _ | EvGetNymSource _ _ | EvQueryAddress _ _
  | EvQueryName _ _ _ | EvNeedWalletPassphrase _ | EvSignMessage _ _ _
  | EvExecute _ _ _ _ | EvRunQuery (SetUpdateTx _ _) _ => True
  | _ => False
  end.

(** A readiness query answered with true. *)
Definition ready_answer (ev : Event) : bool :=
  match ev with
  | EvCanActivate _ (Ok true) | EvIsFinished _ (Ok true) => true
  | _ => false
  end.

(** The columns of a row that identify the binding. *)
Definition key_columns (row : Row) : string * string * string :=
  (name row, nym row, cred row).

(** What one turn of the second loop may leave at the place of the entry
    [i]: nothing, [i] itself, or the registration an activation of [i] in
    this run has returned. *)
Definition turn_outcome (new : list Event) (i : Reg) (kept : option Reg) : Prop :=
  match kept with
  | None => True
  | Some i' => i' = i \/ In (EvActivate i (Ok i')) new
  end.

(** [entries'] comes from [entries] by dropping some entries and
    replacing others by their activation, in order. *)
Inductive advanced (new : list Event) : list Reg -> list Reg -> Prop :=
| advanced_nil : advanced new [] []
| advanced_drop i entries entries' :
    advanced new entries entries' -> advanced new (i :: entries) entries'
| advanced_keep i i' entries entries' :
    i' = i \/ In (EvActivate i (Ok i')) new ->
    advanced new entries entries' ->
    advanced new (i :: entries) (i' :: entries').

(** Every call of the unlock primitive among [new] (newest first) comes
    right after a prompt that was not cancelled, with the passphrase typed
    there, or right after the wallet has said that it needs no passphrase,
    with the empty passphrase. *)
Fixpoint passphrases_as_typed (new : list Event) : Prop :=
  match new with
  | [] => True
  | ev :: older =>
      match ev, older with
      | EvWalletUnlock pwd _, EvDlgExec code typed :: _ => code <> 0%Z /\ pwd = typed
      | EvWalletUnlock pwd _, EvNeedWalletPassphrase (Ok false) :: _ => pwd = ""
      | EvWalletUnlock _ _, _ => False
      | _, _ => True
      end /\ passphrases_as_typed older
  end.

(** The ledger mirrors the store: entry by entry, in order, it holds what
    the payload of the corresponding row awaiting reload reads back as, and
    the row carries the entry's name. *)
Definition mirrors (pendingRegs : list Reg) (t : list Row) : Prop :=
  Forall2 (fun reg row => reg_read (payload row) = Ok reg /\ name row = reg_getName reg)
          pendingRegs (selectPending t).

(** The exceptions that [verifyCredentialHashAtSource] turns into
    [false]. *)
Definition verifier_catches (e : exn) : bool :=
  match e with
  | NameNotFound _ | JsonParseError _ => true
  | _ => false
  end.

(** The registrations of which [new] (newest first) asks [canActivate],
    those of which it asks [isFinished], and those for which [canActivate]
    has answered false, each oldest first. *)
Definition asked_canActivate (new : list Event) : list Reg :=
  flat_map (fun ev => match ev with EvCanActivate r _ => [r] | _ => [] end) (rev new).

Definition asked_isFinished (new : list Event) : list Reg :=
  flat_map (fun ev => match ev with EvIsFinished r _ => [r] | _ => [] end) (rev new).

Definition declined (new : list Event) : list Reg :=
  flat_map (fun ev => match ev with EvCanActivate r (Ok false) => [r] | _ => [] end)
           (rev new).

End MoreNotions.

(** A row and what a later store holds at its place: the same binding,
    still active if it was, still with an update transaction if it had
    one. *)
Definition row_kept (row row' : Row) : Prop :=
  key_columns row' = key_columns row /\
  (active row = true -> active row' = true) /\
  (updateTx row <> None -> updateTx row' <> None).

(** * Sample runs: ledgers, stores and worlds *)
Module Scenario.

Import Sim.

(** Registrations of the credentials ["abc123"] and ["def456"], before and
    after activation. *)
Definition abc_registered : SReg := mkSReg "ot/abc123" false.
Definition abc_activated : SReg := mkSReg "ot/abc123" true.
Definition def_registered : SReg := mkSReg "ot/def456" false.

(** The row [startRegistration] inserts for a registration. *)
Definition row_for (r : SReg) (ny c : string) : Row :=
  mkRow (sr_name r) ny c false (Some (write r)) None.

(** Two bindings awaiting activation. *)
Definition two_waiting : list Row :=
  [row_for abc_registered "N1" "abc123"; row_for def_registered "N1" "def456"].

(** One binding awaiting the confirmation of its activation. *)
Definition one_activated : list Row := [row_for abc_activated "N1" "abc123"].

(** The same credentials registered twice: two rows of one name. *)
Definition twice_abc : list Row :=
  [row_for abc_activated "N1" "abc123"; row_for abc_registered "N1" "abc123"].

(** Worlds in which the last transaction of both names is confirmed. *)
Definition world (is_locked : bool) (answers : list (Z * string))
    (unlock_f ready_f address_f update_f : option exn) : World :=
  mkWorld is_locked "secret" answers unlock_f ["ot/abc123"; "ot/def456"]
          ready_f address_f update_f [] [("N1", "addr1")] ["addr1"] false.

Definition transport_error : exn := RpcError (-1) "connection refused".

Definition all_well : World := world false [] None None None None.

(** The node does not answer the readiness queries. *)
Definition node_down : World := world false [] None (Some transport_error) None None.

(** The wallet is locked; the user tries a wrong passphrase, then cancels. *)
Definition user_cancels : World :=
  world true [(1%Z, "guess"); (0%Z, "")] None None None None.

(** The wallet is locked, the user gives the passphrase, and the unlock
    call fails in transport. *)
Definition unlock_unreachable : World :=
  world true [(1%Z, "secret")] (Some transport_error) None None None.

(** The wallet is locked, the user tries a wrong passphrase and then gives
    the right one, and the unlock call with the right one fails in
    transport. *)
Definition guess_then_unreachable : World :=
  world true [(1%Z, "guess"); (1%Z, "secret")] (Some transport_error) None None None.

(** The store rejects every statement. *)
Definition store_refuses : World :=
  mkWorld false "secret" [] None ["ot/abc123"; "ot/def456"]
          None None None [] [("N1", "addr1")] ["addr1"] true.

(** The update transaction fails in transport. *)
Definition update_unreachable : World :=
  world false [] None None None (Some transport_error).

(** The private key of the source address is no longer in the wallet. *)
Definition key_gone : World :=
  world false [] None None None (Some (NoPrivateKey "no private key")).

(** A registry holding a signed entry for ["abc123"], held by [addr1]. *)
Definition registry : World :=
  mkWorld false "secret" [] None [] None None None
          [("ot/abc123", (Some (JObj [("nmcsig", FStr (sign "addr1" "abc123"))]), "addr1"));
           ("ot/nosig", (Some (JObj [("nmcsig", FNum 7)]), "addr1"));
           ("ot/garbled", (None, "addr1"))]
          [("N1", "addr1")] ["addr1"] false.

(** The outcome of a run, with defaults for a run out of fuel. *)
Definition state_of {A} (run : option (result A * State (X := sim)))
    (otherwise : State (X := sim)) : State (X := sim) :=
  match run with
  | Some (_, s') => s'
  | None => otherwise
  end.

Definition result_of {A} (run : option (result A * State (X := sim)))
    (otherwise : result A) : result A :=
  match run with
  | Some (r, _) => r
  | None => otherwise
  end.



(** A tick in which the unlock call fails in transport, with one binding
    awaiting activation. *)
Definition tick_after_failed_unlock : option (result (list SReg) * State (X := sim)) :=
  timerUpdate (X := sim) 1 [abc_registered]
    (start unlock_unreachable [row_for abc_registered "N1" "abc123"]).

(** An update for an active row when the private key is gone. *)
Definition update_without_key : option (result bool * State (X := sim)) :=
  updateName (X := sim) "N1" "abc123"
    (start key_gone [mkRow "ot/abc123" "N1" "abc123" true None None]).

(** A tick that activates two bindings of distinct names. *)
Definition activating_tick : option (result (list SReg) * State (X := sim)) :=
  timerUpdate (X := sim) 1 [abc_registered; def_registered] (start all_well two_waiting).


(** The Finished step of the first of two bindings registered for the same
    credentials. *)
Definition finished_step_on_duplicates : option (result (option SReg) * State (X := sim)) :=
  tryBinding (X := sim) abc_activated (start all_well twice_abc).

(** A tick with a locked wallet, one wrong passphrase, and an unlock call
    that fails in transport: the states through which its unlock step
    goes. *)
Definition one_waiting : list Row := [row_for abc_registered "N1" "abc123"].

Definition scanned : State (X := sim) :=
  state_of
    (scanPending (X := sim) [abc_registered] false
       (after_line [str "Namecoin update timer called."]
          (start guess_then_unreachable one_waiting)))
    (start guess_then_unreachable []).

Definition first_round : State (X := sim) :=
  after_line [str "Need to unlock the wallet, trying to do it."] scanned.

Definition first_asked : State (X := sim) :=
  state_of (askPassphrase (X := sim) first_round) (start guess_then_unreachable []).

Definition second_round : State (X := sim) :=
  after_failed_unlock (X := sim) "guess" (NmcUnlockFailure "wrong passphrase")
    (ext first_asked) first_asked.

Definition second_asked : State (X := sim) :=
  state_of (askPassphrase (X := sim) second_round) (start guess_then_unreachable []).

(** A registration with a locked wallet and an unlock call that fails in
    transport: the states before and after the passphrase is asked for. *)
Definition named : State (X := sim) :=
  mkState (X := sim) unlock_unreachable []
    [EvQueryName (X := sim) NMC_NS "abc123" (Ok (mkSName "ot/abc123" None));
     EvDebug [str "Registering "; str "N1"; str " with credentials "; str "abc123";
              str " on the Namecoin blockchain."]].

Definition named_asked : State (X := sim) :=
  state_of (askPassphrase (X := sim) named) (start unlock_unreachable []).

(** The same credentials registered twice and both awaiting activation,
    and registered twice and both active. *)
Definition twice_waiting : list Row :=
  [row_for abc_registered "N1" "abc123"; row_for abc_registered "N1" "abc123"].

Definition twice_active : list Row :=
  [mkRow "ot/abc123" "N1" "abc123" true None None;
   mkRow "ot/abc123" "N1" "abc123" true None None].

(** A finished binding and a binding of another name. *)
Definition finished_and_other : list Row :=
  one_activated ++ [row_for def_registered "N1" "def456"].

Definition result_kept (run : option (result (option SReg) * State (X := sim)))
    : option SReg :=
  match run with
  | Some (Ok kept, _) => kept
  | _ => None
  end.

End Scenario.

(** * More sample runs *)
Module MoreScenario.

Import Sim Scenario.

(** The wallet is locked; the user tries a wrong passphrase, then the
    right one. *)
Definition user_retries : World :=
  world true [(1%Z, "guess"); (1%Z, "secret")] None None None None.

(** The wallet is locked and no transaction is confirmed yet. *)
Definition nothing_confirmed : World :=
  mkWorld true "secret" [] None [] None None None [] [("N1", "addr1")] ["addr1"] false.

(** The source address of the nym is not an address of the wallet. *)
Definition not_mine : World :=
  mkWorld false "secret" [] None ["ot/abc123"] None None None [] [("N1", "addr1")] []
          false.

Definition cancelled_unlock : option (result unit * State (X := sim)) :=
  unlock (X := sim) 2 (start user_cancels []).

Definition retried_unlock : option (result unit * State (X := sim)) :=
  unlock (X := sim) 2 (start user_retries []).

Definition scan_of_two : option (result bool * State (X := sim)) :=
  scanPending (X := sim) [abc_activated; def_registered] false (start all_well two_waiting).

Definition quiet_scan : option (result bool * State (X := sim)) :=
  scanPending (X := sim) [abc_registered; def_registered] false
    (after_line [str "Namecoin update timer called."] (start nothing_confirmed two_waiting)).

Definition failed_tick : option (result (list SReg) * State (X := sim)) :=
  timerUpdate (X := sim) 1 [abc_registered]
    (start node_down [row_for abc_registered "N1" "abc123"]).

Definition first_registration : option (result (list SReg) * State (X := sim)) :=
  startRegistration (X := sim) 1 "N1" "abc123" [] (start all_well []).

Definition second_loop : option (result (list SReg) * State (X := sim)) :=
  advanceAll (X := sim) [abc_activated; def_registered]
    (start all_well (one_activated ++ [row_for def_registered "N1" "def456"])).

Definition waiting_turn : option (result (option SReg) * State (X := sim)) :=
  tryBinding (X := sim) abc_registered
    (start nothing_confirmed [row_for abc_registered "N1" "abc123"]).

Definition active_row : Row := mkRow "ot/abc123" "N1" "abc123" true None None.

Definition refused_update : option (result bool * State (X := sim)) :=
  updateName (X := sim) "N1" "abc123" (start not_mine [active_row]).

Definition issued_update : option (result bool * State (X := sim)) :=
  updateName (X := sim) "N1" "abc123" (start all_well [active_row]).

Definition failed_update : option (result bool * State (X := sim)) :=
  updateName (X := sim) "N1" "abc123" (start update_unreachable [active_row]).

(** A registration while the store rejects every statement. *)
Definition unstored_registration : option (result (list SReg) * State (X := sim)) :=
  startRegistration (X := sim) 1 "N1" "abc123" [] (start store_refuses []).

(** A store in which the payload of the second pending row is empty. *)
Definition one_unreadable : list Row :=
  [row_for abc_registered "N1" "abc123";
   mkRow "ot/bad" "N1" "bad" false (Some "") None;
   row_for def_registered "N1" "def456"].

(** A default for [state_of]. *)
Definition nowhere_state : State (X := sim) := start all_well [].

End MoreScenario.

(** * An outside world that cannot be reached

    Every call that reaches the outside fails in transport. *)
Module Offline.

Definition down : exn := RpcError (-1) "connection refused".

Definition offline : Externals := {|
  Ext := unit;
  Reg := string;
  Name := string;
  Address := string;
  JsonData := string;
  reg_getName := fun r => r;
  reg_write := fun r => r;
  reg_read := fun v => Ok v;
  reg_registerName := fun _ w => (Throw down, w);
  reg_canActivate := fun _ w => (Throw down, w);
  reg_isFinished := fun _ w => (Throw down, w);
  reg_activate := fun _ w => (Throw down, w);
  nc_queryName := fun _ _ w => (Throw down, w);
  nc_queryAddress := fun _ w => (Throw down, w);
  nc_needWalletPassphrase := fun w => (Throw down, w);
  name_getName := fun nm => nm;
  name_getJsonValue := fun _ => Throw down;
  name_getAddress := fun _ => Throw down;
  addr_isValid := fun _ => false;
  addr_isMine := fun _ => false;
  addr_getAddress := fun a => a;
  addr_signMessage := fun _ _ w => (Throw down, w);
  addr_verifySignature := fun _ _ _ w => (Throw down, w);
  json_index := fun v _ => v;
  json_isString := fun _ => false;
  json_asString := fun v => v;
  upd_execute := fun _ _ _ w => (Throw down, w);
  wallet_unlock := fun _ w => (Throw down, w);
  otapi_GetNym_SourceForID := fun _ w => (Throw down, w);
  dlg_exec := fun w => ((0%Z, ""), w);
  db_runQuery := fun _ _ w => (false, w);
  db_queryOne := fun _ => Throw down;
  db_queryMultiple := fun _ => []
|}.

Definition nowhere : State (X := offline) := mkState (X := offline) tt [] [].

End Offline.

(** * Properties *)

(** ** What a computation may do: the events it adds, and the store as
    the replay of the statements among them *)
Section Frames.

Context {X : Externals}.

Lemma replay_app new1 new2 t :
  replay (new1 ++ new2) t = replay new1 (replay new2 t).
Proof. unfold replay. apply fold_right_app. Qed.

Lemma replay_no_query new t : Forall no_query new -> replay new t = t.
Proof.
  induction 1 as [|ev new Hev _ IH]; simpl; [reflexivity|].
  destruct ev; simpl in Hev; try contradiction; exact IH.
Qed.

Lemma extends_refl Q s : extends Q s s.
Proof. exists []. repeat split; constructor. Qed.

Lemma extends_trans Q s1 s2 s3 :
  extends Q s1 s2 -> extends Q s2 s3 -> extends Q s1 s3.
Proof.
  intros (n1 & T1 & F1 & D1) (n2 & T2 & F2 & D2).
  exists (n2 ++ n1). repeat split.
  - rewrite T2, T1. apply app_assoc.
  - apply Forall_app; split; assumption.
  - rewrite D2, D1. symmetry. apply replay_app.
Qed.

Lemma extends_weaken (Q Q' : Event -> Prop) s s' :
  (forall ev, Q ev -> Q' ev) -> extends Q s s' -> extends Q' s s'.
Proof.
  intros HQ (new & T & F & D). exists new. repeat split; try assumption.
  eapply Forall_impl; eassumption.
Qed.

Lemma extends_one (Q : Event -> Prop) s e' ev :
  Q ev -> no_query ev ->
  extends Q s (mkState e' (db s) (ev :: trace s)).
Proof.
  intros HQ Hn. exists [ev]. repeat split.
  - constructor; [assumption | constructor].
  - destruct ev; simpl in *; try contradiction; reflexivity.
Qed.

Lemma extends_db Q s s' :
  (forall ev, Q ev -> no_query ev) -> extends Q s s' -> db s' = db s.
Proof.
  intros HQ (new & _ & F & D). rewrite D. apply replay_no_query.
  eapply Forall_impl; eassumption.
Qed.

Lemma only_weaken {A} (Q Q' : Event -> Prop) (m : M A) :
  (forall ev, Q ev -> Q' ev) -> only Q m -> only Q' m.
Proof. intros HQ Hm s r s' E. eapply extends_weaken; eauto. Qed.

Lemma only_ret {A} Q (a : A) : only Q (ret a).
Proof. intros s r s' E. inversion E; subst. apply extends_refl. Qed.

Lemma only_throw {A} Q e : only Q (throw (A := A) e).
Proof. intros s r s' E. inversion E; subst. apply extends_refl. Qed.

Lemma only_pure_call {A} Q (x : result A) : only Q (pure_call x).
Proof. intros s r s' E. inversion E; subst. apply extends_refl. Qed.

Lemma only_queryMultiple Q : only Q queryMultiple.
Proof. intros s r s' E. inversion E; subst. apply extends_refl. Qed.

Lemma only_emit (Q : Event -> Prop) ev : Q ev -> no_query ev -> only Q (emit ev).
Proof. intros HQ Hn s r s' E. inversion E; subst. apply extends_one; assumption. Qed.

Lemma only_qDebug (Q : Event -> Prop) line : Q (EvDebug line) -> only Q (qDebug line).
Proof. intros HQ. apply only_emit; [assumption | exact I]. Qed.

Lemma only_extern {A} (Q : Event -> Prop) (f : Ext -> result A * Ext) ev :
  (forall r, Q (ev r) /\ no_query (ev r)) -> only Q (extern f ev).
Proof.
  intros HQ s r s' E. unfold extern in E. destruct (f (ext s)) as [r0 e0].
  inversion E; subst. apply extends_one; apply HQ.
Qed.

Lemma only_dialog (Q : Event -> Prop) :
  (forall c p, Q (EvDlgExec c p)) -> only Q dialog.
Proof.
  intros HQ s r s' E. unfold dialog in E. destruct (dlg_exec (ext s)) as [p e0].
  inversion E; subst. apply extends_one; [apply HQ | exact I].
Qed.

Lemma only_queryOne (Q : Event -> Prop) n :
  (forall r, Q (EvQueryOne n r)) -> only Q (queryOne n).
Proof.
  intros HQ s r s' E. inversion E; subst. apply extends_one; [apply HQ | exact I].
Qed.

Lemma only_runQuery (Q : Event -> Prop) q :
  (forall ok, Q (EvRunQuery q ok)) -> only Q (runQuery q).
Proof.
  intros HQ s r s' E. unfold runQuery in E.
  destruct (db_runQuery q (db s) (ext s)) as [ok e0].
  inversion E; subst. exists [EvRunQuery q ok].
  repeat split. constructor; [apply HQ | constructor].
Qed.

Lemma only_bind {A B} Q (m : M A) (k : A -> M B) :
  only Q m -> (forall a, only Q (k a)) -> only Q (bind m k).
Proof.
  intros Hm Hk s r s' E. unfold bind in E.
  destruct (m s) as [[[a|e] s1]|] eqn:Em; try discriminate.
  - eapply extends_trans; [eapply Hm; eassumption | eapply Hk; eassumption].
  - inversion E; subst. eapply Hm; eassumption.
Qed.

Lemma only_try_catch {A} Q (m : M A) h :
  only Q m -> (forall e k, h e = Some k -> only Q k) -> only Q (try_catch m h).
Proof.
  intros Hm Hh s r s' E. unfold try_catch in E.
  destruct (m s) as [[[a|e] s1]|] eqn:Em; try discriminate.
  - inversion E; subst. eapply Hm; eassumption.
  - destruct (h e) as [k|] eqn:Eh.
    + eapply extends_trans; [eapply Hm; eassumption | eapply Hh; eassumption].
    + inversion E; subst. eapply Hm; eassumption.
Qed.

End Frames.

(** Breaks an [only] goal down along the structure of the code. *)
Ltac only_step :=
  first
    [ apply only_ret
    | apply only_throw
    | apply only_pure_call
    | apply only_queryMultiple
    | apply only_qDebug; exact I
    | apply only_emit; exact I
    | apply only_extern; intros; split; exact I
    | apply only_dialog; intros; exact I
    | apply only_queryOne; intros; exact I
    | apply only_runQuery; intros; exact I
    | apply only_bind; [ | intros ]
    | apply only_try_catch;
      [ | let e := fresh "e" in let k := fresh "k" in let H := fresh "H" in
          intros e k H; destruct e; simpl in H; inversion H; subst; clear H ]
    | match goal with
      | |- only _ (if ?b then _ else _) => destruct b
      end ].

Ltac only_tac := repeat only_step.

(** ** Computations that need no fuel, and computations that cannot throw *)
Section Termination.

Context {X : Externals}.

Lemma returns_ret {A} (a : A) : returns (ret a).
Proof. intros s. unfold ret. eauto. Qed.

Lemma returns_throw {A} e : returns (throw (A := A) e).
Proof. intros s. unfold throw. eauto. Qed.

Lemma returns_pure_call {A} (x : result A) : returns (pure_call x).
Proof. intros s. unfold pure_call. eauto. Qed.

Lemma returns_emit ev : returns (emit ev).
Proof. intros s. unfold emit. eauto. Qed.

Lemma returns_extern {A} (f : Ext -> result A * Ext) ev : returns (extern f ev).
Proof. intros s. unfold extern. destruct (f (ext s)). eauto. Qed.

Lemma returns_runQuery q : returns (runQuery q).
Proof.
  intros s. unfold runQuery. destruct (db_runQuery q (db s) (ext s)). eauto.
Qed.

Lemma returns_queryOne n : returns (queryOne n).
Proof. intros s. unfold queryOne. eauto. Qed.

Lemma returns_bind {A B} (m : M A) (k : A -> M B) :
  returns m -> (forall a, returns (k a)) -> returns (bind m k).
Proof.
  intros Hm Hk s. unfold bind. destruct (Hm s) as ([a|e] & s1 & E); rewrite E.
  - apply Hk.
  - eauto.
Qed.

Lemma returns_try_catch {A} (m : M A) h :
  returns m -> (forall e k, h e = Some k -> returns k) -> returns (try_catch m h).
Proof.
  intros Hm Hh s. unfold try_catch. destruct (Hm s) as ([a|e] & s1 & E); rewrite E.
  - eauto.
  - destruct (h e) as [k|] eqn:Eh; [eapply Hh; eassumption | eauto].
Qed.

Lemma safe_ret {A} (a : A) : safe (ret a).
Proof. intros s. unfold ret. eauto. Qed.

Lemma safe_emit ev : safe (emit ev).
Proof. intros s. unfold emit. eauto. Qed.

Lemma safe_bind {A B} (m : M A) (k : A -> M B) :
  safe m -> (forall a, safe (k a)) -> safe (bind m k).
Proof.
  intros Hm Hk s. unfold bind. destruct (Hm s) as (a & s1 & E); rewrite E. apply Hk.
Qed.

(** A [try] whose clauses take every exception and whose clause bodies
    return normally. *)
Lemma safe_try_catch {A} (m : M A) h :
  returns m -> (forall e, exists k, h e = Some k /\ safe k) -> safe (try_catch m h).
Proof.
  intros Hm Hh s. unfold try_catch. destruct (Hm s) as ([a|e] & s1 & E); rewrite E.
  - eauto.
  - destruct (Hh e) as (k & Ek & Sk). rewrite Ek. apply Sk.
Qed.

Lemma log_and_swallow_safe {A} (a : A) e :
  exists k, log_and_swallow a e = Some k /\ safe k.
Proof.
  destruct e; simpl; eexists; (split; [reflexivity|]);
    (apply safe_bind; [apply safe_emit | intros; apply safe_ret]).
Qed.

End Termination.

Ltac returns_step :=
  first
    [ apply returns_ret
    | apply returns_throw
    | apply returns_pure_call
    | apply returns_emit
    | apply returns_extern
    | apply returns_runQuery
    | apply returns_queryOne
    | apply returns_bind; [ | intros ]
    | apply returns_try_catch;
      [ | let e := fresh "e" in let k := fresh "k" in let H := fresh "H" in
          intros e k H; destruct e; simpl in H; inversion H; subst; clear H ]
    | match goal with
      | |- returns (if ?b then _ else _) => destruct b
      end ].

Ltac returns_tac := repeat returns_step.

(** ** The events each part of the program can add *)
Section Footprints.

Context {X : Externals}.

Lemma unlock_only fuel : only unlock_ev (unlock fuel).
Proof.
  induction fuel as [|fuel IH]; simpl.
  - intros s r s' E. discriminate.
  - only_tac; exact IH.
Qed.

Lemma scanPending_only entries b : only ready_ev (scanPending entries b).
Proof.
  revert b. induction entries as [|entry rest IH]; intros b; simpl; only_tac; apply IH.
Qed.

Lemma tickPrefix_only fuel entries : only prefix_ev (tickPrefix fuel entries).
Proof.
  unfold tickPrefix, unlockIfNeeded. only_tac.
  - eapply only_weaken; [|apply scanPending_only].
    intros ev; destruct ev; simpl; tauto.
  - eapply only_weaken; [|apply unlock_only].
    intros ev; destruct ev; simpl; tauto.
Qed.

Lemma updateName_only ny c : only advance_ev (updateName ny c).
Proof. unfold updateName, getNameForNym. only_tac. Qed.

Lemma tryBinding_only i : only advance_ev (tryBinding i).
Proof.
  unfold tryBinding, processBinding, log_and_swallow. only_tac.
Qed.

Lemma advanceAll_only entries : only advance_ev (advanceAll entries).
Proof.
  induction entries as [|i rest IH]; simpl; only_tac;
    solve [apply tryBinding_only | apply IH].
Qed.

Lemma verify_only hash source :
  only verify_ev (verifyCredentialHashAtSource hash source).
Proof. unfold verifyCredentialHashAtSource. only_tac. Qed.

Lemma updateName_returns ny c : returns (updateName ny c).
Proof. unfold updateName, getNameForNym, qDebug. returns_tac. Qed.

Lemma processBinding_returns i : returns (processBinding i).
Proof.
  unfold processBinding, qDebug. returns_tac.
Qed.

Lemma tryBinding_safe i : safe (tryBinding i).
Proof.
  unfold tryBinding. apply safe_try_catch.
  - apply processBinding_returns.
  - apply log_and_swallow_safe.
Qed.

(** The second loop of [timerUpdate] lets no exception out. *)
Lemma advanceAll_safe entries : safe (advanceAll entries).
Proof.
  induction entries as [|i rest IH]; simpl.
  - apply safe_ret.
  - apply safe_bind; [apply tryBinding_safe|]. intros kept.
    apply safe_bind; [apply IH|]. intros rest'. apply safe_ret.
Qed.

End Footprints.

(** ** Taking a run apart *)
Section Inversion.

Context {X : Externals}.

Lemma bind_inv {A B} (m : M A) (k : A -> M B) s r s' :
  bind m k s = Some (r, s') ->
  (exists e, m s = Some (Throw e, s') /\ r = Throw e) \/
  (exists a s1, m s = Some (Ok a, s1) /\ k a s1 = Some (r, s')).
Proof.
  unfold bind. destruct (m s) as [[[a|e] s1]|]; intros E; try discriminate.
  - right. eauto.
  - left. inversion E; subst. eauto.
Qed.

(** A run whose first part is known. *)
Lemma bind_run {A B} (m : M A) (k : A -> M B) s a s1 r :
  m s = Some (Ok a, s1) -> k a s1 = r -> bind m k s = r.
Proof. intros Em Ek. unfold bind. rewrite Em. exact Ek. Qed.

Lemma try_run {A} (m : M A) h s a s1 :
  m s = Some (Ok a, s1) -> try_catch m h s = Some (Ok a, s1).
Proof. intros Em. unfold try_catch. rewrite Em. reflexivity. Qed.

(** The events between two states, when the later trace extends the
    earlier one, are determined. *)
Lemma new_unique (s s' : State) new1 new2 :
  trace s' = new1 ++ trace s -> trace s' = new2 ++ trace s -> new1 = new2.
Proof. intros E1 E2. rewrite E1 in E2. eapply app_inv_tail; eassumption. Qed.

(** The events of a run whose first part is known event by event, and
    whose second part has a footprint. *)
Lemma new_after Q (s s1 s' : State) pre new :
  trace s1 = pre ++ trace s -> extends Q s1 s' -> trace s' = new ++ trace s ->
  exists n2,
    new = n2 ++ pre /\ trace s' = n2 ++ trace s1 /\ Forall Q n2 /\
    db s' = replay n2 (db s1).
Proof.
  intros T1 (n2 & T2 & F2 & D2) E. exists n2. repeat split; try assumption.
  eapply new_unique; [eassumption|]. rewrite T2, T1. apply app_assoc.
Qed.

End Inversion.

(** Case analysis on the next call whose outcome decides how a run in
    hypothesis [H] goes on. *)
Ltac branch H :=
  match type of H with
  | context [match ?x with _ => _ end] =>
      lazymatch x with
      | context [match _ with _ => _ end] => fail
      | _ => destruct x eqn:?
      end
  end.

(** The events before [t] in the list [l], which ends in [t]. *)
Ltac front l t :=
  lazymatch l with
  | t => constr:(@nil Event)
  | ?ev :: ?l' => let r := front l' t in constr:(ev :: r)
  | ?n ++ t => constr:(n)
  | ?n ++ ?l' => let r := front l' t in constr:(n ++ r)
  end.

(** From [T : ev1 :: ... :: trace s = new ++ trace s], the value of [new]. *)
Ltac know_new T :=
  lazymatch type of T with
  | ?l = ?new ++ ?t =>
      let pre := front l t in
      let E := fresh "E" in
      assert (E : new = pre)
        by (apply (app_inv_tail t); rewrite <- T;
            repeat (rewrite <- app_assoc || rewrite <- app_comm_cons);
            reflexivity);
      subst new; clear T
  end.

(** Membership in an explicit list of events, case by case. *)
Ltac in_cases H :=
  simpl in H;
  repeat (destruct H as [H|H]; [try discriminate H | ]);
  try contradiction.

(** Splits the events of a run at the state [s1] from which the sub-run
    [E] started; [F : extends _ s1 s'] is the footprint of the sub-run. *)
Ltac split_at E F T :=
  lazymatch type of E with
  | _ ?s1 = Some (_, ?s') =>
      lazymatch type of T with
      | trace s' = ?new ++ trace ?s =>
          let l := eval simpl in (trace s1) in
          let pre := front l (trace s) in
          let n2 := fresh "n" in
          let T2 := fresh "T" in
          let F2 := fresh "F" in
          let D2 := fresh "D" in
          destruct (@new_after _ _ s s1 s' pre new eq_refl F T)
            as (n2 & -> & T2 & F2 & D2)
      end
  end.

Ltac run H :=
  unfold bind, try_catch, qDebug, emit, extern, dialog, runQuery, queryOne,
    pure_call, ret, throw in H;
  simpl in H;
  repeat (branch H; simpl in H; try discriminate H).

(** ** The unlock step *)
Section Unlock.

Context {X : Externals}.



(** One round of [unlock]: the passphrase is asked for, the unlock
    primitive is called with it, and the [catch] clauses decide. *)
Lemma unlock_round fuel s pwd s1 r e2 :
  askPassphrase s = Some (Ok pwd, s1) ->
  wallet_unlock pwd (ext s1) = (r, e2) ->
  unlock (S fuel) s =
    match r with
    | Ok _ =>
        Some (Ok tt,
              mkState e2 (db s1)
                (EvDebug [str "Unlock successful (or not necessary)."] ::
                 EvWalletUnlock pwd r :: trace s1))
    | Throw (NmcUnlockFailure what) =>
        unlock fuel (after_failed_unlock pwd (NmcUnlockFailure what) e2 s1)
    | Throw e => Some (Ok tt, after_failed_unlock pwd e e2 s1)
    end.
Proof.
  intros Hask Hunlock. cbn [unlock]. unfold askPassphrase in Hask.
  unfold bind, try_catch, qDebug, emit, extern, dialog, throw, ret in *.
  simpl in *.
  destruct (nc_needWalletPassphrase (ext s)) as [[[|]|e] e1]; simpl in *;
    try discriminate Hask.
  - destruct (dlg_exec e1) as [p e1']. simpl in *.
    destruct (fst p =? 0)%Z; simpl in *; [discriminate Hask|].
    inversion Hask; subst; clear Hask. simpl in *. rewrite Hunlock.
    destruct r as [[]|e]; [reflexivity|]. destruct e; reflexivity.
  - inversion Hask; subst; clear Hask. simpl in *. rewrite Hunlock.
    destruct r as [[]|e]; [reflexivity|]. destruct e; reflexivity.
Qed.

(** After [k] rounds that end in a wrong passphrase, a round in which the
    unlock primitive fails otherwise ends [unlock] normally, whatever fuel
    is left. *)
Lemma unlock_after_retries k : forall s s0 pwd s1 e e2 fuel,
  retried k s s0 ->
  askPassphrase s0 = Some (Ok pwd, s1) ->
  wallet_unlock pwd (ext s1) = (Throw e, e2) ->
  wrong_secret e = false ->
  k < fuel ->
  unlock fuel s = Some (Ok tt, after_failed_unlock pwd e e2 s1).
Proof.
  induction k as [|k IH]; intros s s0 pwd s1 e e2 fuel Hr Hask Hunlock He Hk;
    (destruct fuel as [|fuel]; [lia|]); inversion Hr; subst.
  - rewrite (unlock_round fuel _ Hask Hunlock).
    destruct e; try reflexivity. discriminate He.
  - match goal with
    | Ha : askPassphrase s = _, Hu : wallet_unlock _ _ = _ |- _ =>
        rewrite (unlock_round fuel _ Ha Hu)
    end.
    eapply IH; try eassumption. lia.
Qed.

(** C7 (as amended): when the wallet requires no secret, [unlock] shows no
    prompt and calls the underlying unlock primitive, with the empty
    secret.  If that call returns, or fails otherwise than by reporting a
    wrong secret, [unlock] returns normally (Unlocked) right after it, with
    the store untouched: the trace has grown by the opening line, the
    wallet-state query, that one call and the closing line.  If the call
    reports a wrong secret, [unlock] prints that and starts over. *)
Theorem unlock_no_secret_needed (fuel : nat) (s : State) (e1 e2 : Ext)
    (r : result unit) :
  nc_needWalletPassphrase (ext s) = (Ok false, e1) ->
  wallet_unlock "" e1 = (r, e2) ->
  ((forall what, r <> Throw (NmcUnlockFailure what)) ->
   unlock (S fuel) s =
     Some (Ok tt,
           mkState e2 (db s)
             (EvDebug (outcome_line r) :: EvWalletUnlock "" r ::
              EvNeedWalletPassphrase (Ok false) ::
              EvDebug [str "Trying to unlock the Namecoin wallet."] :: trace s))) /\
  ((exists what, r = Throw (NmcUnlockFailure what)) ->
   unlock (S fuel) s =
     unlock fuel
       (mkState e2 (db s)
          (EvDebug [str "Wrong passphrase, retrying."] :: EvWalletUnlock "" r ::
           EvNeedWalletPassphrase (Ok false) ::
           EvDebug [str "Trying to unlock the Namecoin wallet."] :: trace s))).
Proof.
  intros Hneed Hunlock.
  assert (Hask : askPassphrase s =
                 Some (Ok "", mkState e1 (db s)
                                (EvNeedWalletPassphrase (Ok false) ::
                                 EvDebug [str "Trying to unlock the Namecoin wallet."] ::
                                 trace s))).
  { unfold askPassphrase, bind, qDebug, emit, extern, ret. simpl.
    rewrite Hneed. reflexivity. }
  rewrite (unlock_round fuel _ Hask Hunlock). split.
  - intros Hr. destruct r as [[]|e]; [reflexivity|].
    destruct e; try reflexivity. exfalso. eapply Hr. reflexivity.
  - intros (what & ->). reflexivity.
Qed.

End Unlock.

(** ** Fuel only bounds the retries: a result, once reached, stays *)
Section Fuel.

Context {X : Externals}.

Lemma at_least_refl {A} (m : M A) : at_least m m.
Proof. intros s x H. exact H. Qed.

Lemma at_least_bind {A B} (m m' : M A) (k k' : A -> M B) :
  at_least m m' -> (forall a, at_least (k a) (k' a)) ->
  at_least (bind m k) (bind m' k').
Proof.
  intros Hm Hk s x H. unfold bind in *.
  destruct (m s) as [[[a|e] s1]|] eqn:Em; try discriminate;
    rewrite (Hm _ _ Em); [apply Hk|]; exact H.
Qed.

Lemma at_least_try_catch {A} (m m' : M A) h h' :
  at_least m m' ->
  (forall e, match h e, h' e with
             | Some k, Some k' => at_least k k'
             | None, None => True
             | _, _ => False
             end) ->
  at_least (try_catch m h) (try_catch m' h').
Proof.
  intros Hm Hh s x H. unfold try_catch in *.
  destruct (m s) as [[[a|e] s1]|] eqn:Em; try discriminate;
    rewrite (Hm _ _ Em); [exact H|].
  specialize (Hh e). destruct (h e) as [k|], (h' e) as [k'|]; try contradiction.
  - apply Hh. exact H.
  - exact H.
Qed.

Lemma unlock_more_fuel fuel : at_least (unlock fuel) (unlock (S fuel)).
Proof.
  induction fuel as [|fuel IH].
  - intros s x H. discriminate.
  - cbn [unlock].
    apply at_least_bind; [apply at_least_refl|]. intros _.
    apply at_least_bind; [apply at_least_refl|]. intros need.
    apply at_least_bind; [apply at_least_refl|]. intros pwd.
    apply at_least_try_catch; [apply at_least_refl|].
    intros e. destruct e; try apply at_least_refl.
    apply at_least_bind; [apply at_least_refl|]. intros _. exact IH.
Qed.

Lemma unlock_fuel_enough fuel fuel' :
  fuel <= fuel' -> at_least (unlock fuel) (unlock fuel').
Proof.
  induction 1 as [|fuel' _ IH]; [apply at_least_refl|].
  intros s x H. apply unlock_more_fuel. apply IH. exact H.
Qed.

Lemma unlock_or_return_fuel_enough fuel fuel' line :
  fuel <= fuel' ->
  at_least (unlock_or_return fuel line) (unlock_or_return fuel' line).
Proof.
  intros Hle. unfold unlock_or_return.
  apply at_least_try_catch.
  - apply at_least_bind; [apply unlock_fuel_enough; exact Hle|].
    intros _. apply at_least_refl.
  - intros e. destruct e; try exact I. apply at_least_refl.
Qed.


Lemma startRegistration_fuel_enough fuel fuel' ny c pendingRegs :
  fuel <= fuel' ->
  at_least (startRegistration fuel ny c pendingRegs)
           (startRegistration fuel' ny c pendingRegs).
Proof.
  intros Hle. unfold startRegistration.
  apply at_least_bind; [apply at_least_refl|]. intros _.
  apply at_least_try_catch.
  - apply at_least_bind; [apply at_least_refl|]. intros nm.
    apply at_least_bind; [apply unlock_or_return_fuel_enough; exact Hle|].
    intros go. apply at_least_refl.
  - intros e. destruct e; simpl; apply at_least_refl.
Qed.

(** A prompt cancelled at once: [unlock] throws whatever the fuel. *)
Lemma unlock_first_prompt_cancelled fuel s e1 pwd e2 :
  nc_needWalletPassphrase (ext s) = (Ok true, e1) ->
  dlg_exec e1 = ((0%Z, pwd), e2) ->
  exists s',
    unlock (S fuel) s = Some (Throw (UnlockFailure "Wallet unlock was cancelled."), s') /\
    ext s' = e2 /\ db s' = db s.
Proof.
  intros Hneed Hdlg. cbn [unlock].
  unfold bind, try_catch, qDebug, emit, extern, dialog, throw, ret. simpl.
  rewrite Hneed. simpl. rewrite Hdlg. simpl. eexists. repeat split.
Qed.

End Fuel.

(** ** Cancelled prompts and failed unlocks, seen from the callers *)

(** The footprint of a sub-run [H] of one of the program's parts. *)
Ltac note_footprint H :=
  let F := fresh "FP" in
  first
    [ pose proof (@scanPending_only _ _ _ _ _ _ H) as F
    | pose proof (@unlock_only _ _ _ _ _ H) as F
    | pose proof (@tickPrefix_only _ _ _ _ _ _ H) as F
    | pose proof (@advanceAll_only _ _ _ _ _ H) as F
    | pose proof (@tryBinding_only _ _ _ _ _ H) as F
    | pose proof (@updateName_only _ _ _ _ _ _ H) as F ];
  let n := fresh "n" in
  let T := fresh "TR" in
  let Fa := fresh "F" in
  let D := fresh "D" in
  destruct F as (n & T & Fa & D); simpl in T, D.

(** Footprints of all sub-runs in the context. *)
Ltac footprints :=
  repeat match goal with
         | H : _ = Some (_, ?s1) |- _ =>
             lazymatch goal with
             | _ : trace s1 = _ |- _ => fail
             | _ => note_footprint H
             end
         end.

(** The events [new] of the whole run [T : trace s' = new ++ trace s] in
    terms of the footprints of its sub-runs. *)
Ltac resolve_new T :=
  simpl in T;
  repeat match goal with
         | Ht : trace _ = _ |- _ =>
             tryif constr_eq Ht T then fail else rewrite Ht in T
         end;
  know_new T.

Ltac with_footprints T := revert T; footprints; intro T; resolve_new T.

(** Membership in a list of events given in parts, part by part. *)
Ltac in_parts H :=
  repeat match type of H with
         | In _ (_ ++ _) => apply in_app_or in H; destruct H as [H|H]
         | In _ (_ :: _) => destruct H as [H|H]; [try discriminate H | ]
         | In _ [] => destruct H
         end.


Section Tick.

Context {X : Externals}.

Lemma prefix_ev_no_query ev : prefix_ev ev -> no_query ev.
Proof. destruct ev; simpl; tauto. Qed.

Lemma unlock_ev_no_query ev : unlock_ev ev -> no_query ev.
Proof. destruct ev; simpl; tauto. Qed.




(** C6 (as amended): a failure of the unlock primitive other than a wrong
    secret, in whatever round of [unlock] it comes (after [k] rounds that
    ended in a wrong secret), is printed and is not thrown on: [unlock]
    returns normally.  The caller goes on as after a successful unlock: the
    tick runs its second loop over the whole ledger, from the state the
    failure has left, and returns what that loop returns; the registration
    goes on to the register operation on the registry. *)
Theorem unlock_failure_swallowed k fuel (s0 s1 : State) pwd e e2 :
  askPassphrase s0 = Some (Ok pwd, s1) ->
  wallet_unlock pwd (ext s1) = (Throw e, e2) ->
  wrong_secret e = false ->
  k < fuel ->
  (forall s,
      retried k s s0 ->
      unlock fuel s = Some (Ok tt, after_failed_unlock pwd e e2 s1) /\
      trace (after_failed_unlock pwd e e2 s1) =
        EvDebug (failure_line e) :: EvWalletUnlock pwd (Throw e) :: trace s1) /\
  (forall pendingRegs s s_scan,
      scanPending pendingRegs false
        (after_line [str "Namecoin update timer called."] s) = Some (Ok true, s_scan) ->
      retried k
        (after_line [str "Need to unlock the wallet, trying to do it."] s_scan) s0 ->
      exists pendingRegs' s',
        timerUpdate fuel pendingRegs s = Some (Ok pendingRegs', s') /\
        advanceAll pendingRegs (after_failed_unlock pwd e e2 s1)
          = Some (Ok pendingRegs', s')) /\
  (forall ny c pendingRegs s nm e0,
      nc_queryName NMC_NS c (ext s) = (Ok nm, e0) ->
      retried k
        (mkState e0 (db s)
           (EvQueryName NMC_NS c (Ok nm) ::
            EvDebug [str "Registering "; str ny; str " with credentials "; str c;
                     str " on the Namecoin blockchain."] :: trace s)) s0 ->
      exists pendingRegs' s' res e3,
        startRegistration fuel ny c pendingRegs s = Some (Ok pendingRegs', s') /\
        reg_registerName nm e2 = (res, e3) /\
        In (EvRegisterName nm res) (trace s')).
Proof.
  intros Hask Hunlock He Hk.
  assert (Hu : forall s, retried k s s0 ->
                 unlock fuel s = Some (Ok tt, after_failed_unlock pwd e e2 s1))
    by (intros s Hr; eapply unlock_after_retries; eassumption).
  split; [|split].
  - intros s Hr. split; [apply Hu; exact Hr|].
    destruct e; try reflexivity. discriminate He.
  - intros pendingRegs s s_scan Hscan Hr.
    destruct (advanceAll_safe pendingRegs (after_failed_unlock pwd e e2 s1))
      as (pendingRegs' & s' & Ea).
    exists pendingRegs', s'. split; [|exact Ea].
    unfold timerUpdate. eapply bind_run with (a := true); [|exact Ea].
    unfold tickPrefix. eapply bind_run; [reflexivity|].
    eapply bind_run; [exact Hscan|].
    unfold unlockIfNeeded. eapply bind_run; [reflexivity|].
    unfold unlock_or_return. apply try_run.
    eapply bind_run; [apply Hu; exact Hr | reflexivity].
  - intros ny c pendingRegs s nm e0 Hq Hr.
    destruct (reg_registerName nm e2) as [res e3] eqn:Hreg.
    assert (Hgo : exists s2,
               (nm0 <- getNameForNym ny c;;
                go <- unlock_or_return fuel [str "Unlock failed."];;
                if go : bool then
                  reg <- extern (reg_registerName nm0) (EvRegisterName nm0);;
                  runQuery (InsertName (name_getName nm0) ny c (reg_write reg));;
                  ret (pendingRegs ++ [reg])
                else ret pendingRegs)
                 (after_line [str "Registering "; str ny; str " with credentials ";
                              str c; str " on the Namecoin blockchain."] s)
               = Some (match res with
                       | Ok reg => Ok (pendingRegs ++ [reg])
                       | Throw e' => Throw e'
                       end, s2) /\
               In (EvRegisterName nm res) (trace s2)).
    { destruct res as [reg|e'].
      - destruct (db_runQuery (InsertName (name_getName nm) ny c (reg_write reg))
                    (db s1) e3) as [ok e4] eqn:Hrun.
        eexists. split.
        + eapply bind_run.
          { unfold getNameForNym, extern, after_line. cbn [ext db trace].
            rewrite Hq. reflexivity. }
          eapply bind_run.
          { unfold unlock_or_return. apply try_run.
            eapply bind_run; [apply Hu; exact Hr | reflexivity]. }
          cbv beta iota. eapply bind_run.
          { unfold extern, after_failed_unlock. cbn [ext db trace].
            rewrite Hreg. reflexivity. }
          eapply bind_run; [|reflexivity].
          unfold runQuery. cbn [ext db trace]. rewrite Hrun. reflexivity.
        + simpl. auto.
      - eexists. split.
        + eapply bind_run.
          { unfold getNameForNym, extern, after_line. cbn [ext db trace].
            rewrite Hq. reflexivity. }
          eapply bind_run.
          { unfold unlock_or_return. apply try_run.
            eapply bind_run; [apply Hu; exact Hr | reflexivity]. }
          cbv beta iota. unfold bind, extern, after_failed_unlock.
          cbn [ext db trace]. rewrite Hreg. reflexivity.
        + simpl. auto. }
    destruct Hgo as (s2 & Ego & Hin).
    unfold startRegistration. unfold bind at 1. unfold qDebug at 1, emit at 1.
    change (mkState (ext s) (db s)
              (EvDebug [str "Registering "; str ny; str " with credentials "; str c;
                        str " on the Namecoin blockchain."] :: trace s))
      with (after_line [str "Registering "; str ny; str " with credentials "; str c;
                        str " on the Namecoin blockchain."] s).
    unfold try_catch. rewrite Ego.
    destruct res as [reg|e'].
    + do 4 eexists. split; [reflexivity|]. split; [reflexivity|]. exact Hin.
    + unfold log_and_swallow.
      destruct e'; unfold bind, qDebug, emit, ret; cbn [ext db trace];
        (do 4 eexists; split; [reflexivity|]; split; [reflexivity|]; simpl; auto).
Qed.

End Tick.

(** ** The update operation *)
Section Update.

Context {X : Externals}.

(** Every run of [updateName] is entered once. *)
Lemma updateName_entered_once ny c s r s' new :
  updateName ny c s = Some (r, s') ->
  trace s' = new ++ trace s ->
  filter is_updateName new = [EvUpdateName ny c].
Proof.
  intros E T. unfold updateName, getNameForNym in E. run E.
  all: inversion E; subst; clear E; simpl in T; know_new T; reflexivity.
Qed.

(** C8: whenever the update execution inside [updateName] fails for want
    of the private key, [updateName] returns [false] (it does not throw),
    runs no statement on the store, and leaves every row as it was, so a row
    with [active = true] and no update transaction stays so. *)
Theorem updateName_no_private_key ny c s r s' new nm value addr what :
  updateName ny c s = Some (r, s') ->
  trace s' = new ++ trace s ->
  In (EvExecute nm value addr (Throw (NoPrivateKey what))) new ->
  r = Ok false /\ db s' = db s /\ Forall no_query new.
Proof.
  intros E T Hin. unfold updateName, getNameForNym in E. run E.
  all: inversion E; subst; clear E; simpl in T; know_new T; in_cases Hin.
  all: try solve [inversion Hin].
  repeat split. repeat constructor.
Qed.

End Update.

(** ** Finished bindings in the second loop *)
Section Advance.

Context {X : Externals}.

(** The second loop handles a ledger part by part, in order. *)
Lemma advanceAll_app pre : forall post s pre' s1 post' s2,
  advanceAll pre s = Some (Ok pre', s1) ->
  advanceAll post s1 = Some (Ok post', s2) ->
  advanceAll (pre ++ post) s = Some (Ok (pre' ++ post'), s2).
Proof.
  induction pre as [|i pre IH]; intros post s pre' s1 post' s2 E1 E2.
  - inversion E1; subst. exact E2.
  - simpl in E1 |- *. unfold bind in E1 |- *.
    destruct (tryBinding i s) as [[[kept|e] s0]|]; try discriminate.
    destruct (advanceAll pre s0) as [[[rest|e] s3]|] eqn:E3; try discriminate.
    inversion E1; subst; clear E1.
    rewrite (IH _ _ _ _ _ _ E3 E2). destruct kept; reflexivity.
Qed.

Lemma advanceAll_cons i rest s kept s1 rest' s2 :
  tryBinding i s = Some (Ok kept, s1) ->
  advanceAll rest s1 = Some (Ok rest', s2) ->
  advanceAll (i :: rest) s = Some (Ok (kept_list kept ++ rest'), s2).
Proof.
  intros E1 E2. simpl. unfold bind. rewrite E1, E2. destruct kept; reflexivity.
Qed.

(** X19: in the second loop of a tick, for a binding [i] at any place of
    the ledger that answers [isFinished] with true: the loop handles it
    once and lets no exception out, and its place in the ledger is left
    empty or holds [i] as before.  When the lookup of its row gives a
    record, [updateName] is entered exactly once, for that record's nym and
    credentials; [i] leaves the ledger when that invocation returns, be it
    [true] or [false], and stays when it throws.  When the lookup itself
    throws, [updateName] is not entered and [i] stays. *)
Theorem finished_binding_update_and_removal pre i post s pre' s1 e1 ok e2 :
  advanceAll pre s = Some (Ok pre', s1) ->
  reg_isFinished i (ext s1) = (Ok true, e1) ->
  db_runQuery (SetFinished (reg_getName i)) (db s1) e1 = (ok, e2) ->
  exists kept s2 new post' s3,
    tryBinding i s1 = Some (Ok kept, s2) /\
    trace s2 = new ++ trace s1 /\
    advanceAll post s2 = Some (Ok post', s3) /\
    advanceAll (pre ++ i :: post) s = Some (Ok (pre' ++ kept_list kept ++ post'), s3) /\
    (kept = None \/ kept = Some i) /\
    (forall rec,
        db_queryOne (selectByName (reg_getName i)
                       (stored ok (SetFinished (reg_getName i)) (db s1))) = Ok rec ->
        filter is_updateName new = [EvUpdateName (nym rec) (cred rec)] /\
        exists ru su,
          updateName (nym rec) (cred rec) (after_lookup i e2 ok rec s1) = Some (ru, su) /\
          (kept = None <-> exists b, ru = Ok b)) /\
    (forall e,
        db_queryOne (selectByName (reg_getName i)
                       (stored ok (SetFinished (reg_getName i)) (db s1))) = Throw e ->
        filter is_updateName new = [] /\ kept = Some i).
Proof.
  intros Epre Hfin Hrun.
  destruct (tryBinding_safe i s1) as (kept & s2 & Etry).
  destruct (advanceAll_safe post s2) as (post' & s3 & Epost).
  destruct (@tryBinding_only _ _ _ _ _ Etry) as (new & T & _ & _).
  exists kept, s2, new, post', s3.
  split; [exact Etry|]. split; [exact T|]. split; [exact Epost|].
  split; [eapply advanceAll_app; [exact Epre | eapply advanceAll_cons; eassumption]|].
  unfold tryBinding, processBinding, log_and_swallow in Etry.
  unfold bind, try_catch, qDebug, emit, extern, runQuery, queryOne, ret in Etry.
  rewrite Hfin in Etry. cbn [ext db trace] in Etry. rewrite Hrun in Etry.
  cbn [ext db trace] in Etry.
  destruct (db_queryOne _) as [rec|e] eqn:Eq.
  - destruct (updateName (nym rec) (cred rec) _)
      as [[[b|e] su]|] eqn:Eu in Etry; [| |discriminate Etry];
      change (updateName (nym rec) (cred rec) (after_lookup i e2 ok rec s1) = Some (Ok b, su)) in Eu
      || change (updateName (nym rec) (cred rec) (after_lookup i e2 ok rec s1) = Some (Throw e, su)) in Eu.
    + inversion Etry; subst; clear Etry.
      split; [left; reflexivity|]. split; [|intros e; discriminate].
      intros rec' Hrec; inversion Hrec; subst rec'; clear Hrec.
      split.
      * destruct (@updateName_only _ _ _ _ _ _ Eu) as (nu & Tu & _ & _).
        simpl in T. rewrite Tu in T. unfold after_lookup in T. simpl in T.
        know_new T. simpl. rewrite filter_app. simpl.
        rewrite (@updateName_entered_once _ _ _ _ _ _ _ Eu Tu). reflexivity.
      * exists (Ok b), su. split; [exact Eu|]. split; eauto.
    + assert (Ek : kept = Some i /\ exists line, trace s2 = EvDebug line :: trace su).
      { destruct e; simpl in Etry; inversion Etry; subst;
        (split; [reflexivity | eexists; reflexivity]). }
      destruct Ek as (-> & line & Tl). clear Etry.
      split; [right; reflexivity|]. split; [|intros e'; discriminate].
      intros rec' Hrec; inversion Hrec; subst rec'; clear Hrec.
      split.
      * destruct (@updateName_only _ _ _ _ _ _ Eu) as (nu & Tu & _ & _).
        rewrite Tl, Tu in T. unfold after_lookup in T. simpl in T.
        know_new T. simpl. rewrite filter_app. simpl.
        rewrite (@updateName_entered_once _ _ _ _ _ _ _ Eu Tu). reflexivity.
      * exists (Throw e), su. split; [exact Eu|].
        split; [discriminate | intros (b & Hb); discriminate].
  - assert (Ek : kept = Some i /\ exists line,
                 trace s2 = EvDebug line :: EvQueryOne (reg_getName i) (Throw e) ::
                            EvRunQuery (SetFinished (reg_getName i)) ok ::
                            EvDebug [str "Registration finished for "; str (reg_getName i)] ::
                            EvIsFinished i (Ok true) :: trace s1).
    { destruct e; simpl in Etry; inversion Etry; subst;
        (split; [reflexivity | eexists; reflexivity]). }
    destruct Ek as (-> & line & Tl). clear Etry.
    split; [right; reflexivity|]. split; [intros rec; discriminate|].
    intros e' _. rewrite Tl in T. know_new T. split; reflexivity.
Qed.

End Advance.

(** ** The verifier *)
Section Verify.

Context {X : Externals}.

(** C4: once the registry has answered the query for the name derived from
    the hash, [verifyCredentialHashAtSource] returns [false] when the name
    is not found, when its value is not valid JSON, when the field
    ['nmcsig'] is absent or not a string, and when the address holding the
    name is not the claimed source; it returns [true] only when that address
    is the source and the signature check on the hash has answered true;
    and it runs no statement on the store: all it does is query the name,
    check the signature and print. *)
Theorem verify_rejections_and_acceptance hash source s nm e1 :
  nc_queryName NMC_NS hash (ext s) = (Ok nm, e1) ->
  (forall what, name_getJsonValue nm = Throw (NameNotFound what) ->
     exists s', verifyCredentialHashAtSource hash source s = Some (Ok false, s')) /\
  (forall what, name_getJsonValue nm = Throw (JsonParseError what) ->
     exists s', verifyCredentialHashAtSource hash source s = Some (Ok false, s')) /\
  (forall val, name_getJsonValue nm = Ok val ->
     json_isString (json_index val "nmcsig") = false ->
     exists s', verifyCredentialHashAtSource hash source s = Some (Ok false, s')) /\
  (forall val addr, name_getJsonValue nm = Ok val ->
     json_isString (json_index val "nmcsig") = true ->
     name_getAddress nm = Ok addr ->
     addr_getAddress addr <> source ->
     exists s', verifyCredentialHashAtSource hash source s = Some (Ok false, s')) /\
  (forall s', verifyCredentialHashAtSource hash source s = Some (Ok true, s') ->
     exists val addr e2,
       name_getJsonValue nm = Ok val /\
       json_isString (json_index val "nmcsig") = true /\
       name_getAddress nm = Ok addr /\
       addr_getAddress addr = source /\
       addr_verifySignature addr hash (json_asString (json_index val "nmcsig")) e1
         = (Ok true, e2)) /\
  (forall r s', verifyCredentialHashAtSource hash source s = Some (r, s') ->
     db s' = db s /\ extends verify_ev s s').
Proof.
  intros Hq.
  unfold verifyCredentialHashAtSource.
  unfold bind, try_catch, qDebug, emit, extern, pure_call, ret; simpl.
  rewrite Hq; simpl.
  repeat split.
  - intros what ->. simpl. eauto.
  - intros what ->. simpl. eauto.
  - intros val -> Hs. simpl. rewrite Hs. simpl. eauto.
  - intros val addr -> Hs -> Hneq. simpl. rewrite Hs. simpl.
    destruct (String.eqb_spec source (addr_getAddress addr)) as [Heq|_]; simpl.
    + exfalso. apply Hneq. symmetry. exact Heq.
    + eauto.
  - intros s' E.
    destruct (name_getJsonValue nm) as [val|e]; simpl in E;
      [|destruct e; simpl in E; discriminate].
    destruct (json_isString (json_index val "nmcsig")) eqn:Hs; simpl in E;
      [|discriminate].
    destruct (name_getAddress nm) as [addr|e]; simpl in E;
      [|destruct e; simpl in E; discriminate].
    destruct (String.eqb_spec source (addr_getAddress addr)) as [Heq|_]; simpl in E;
      [|discriminate].
    destruct (addr_verifySignature addr hash _ e1) as [[[|]|e] e2] eqn:Hv; simpl in E;
      try discriminate; [|destruct e; simpl in E; discriminate].
    exists val, addr, e2. repeat split; auto.
  - pose proof (@verify_only _ hash source s r s') as F.
    unfold verifyCredentialHashAtSource in F.
    unfold bind, try_catch, qDebug, emit, extern, pure_call, ret in F; simpl in F.
    rewrite Hq in F; simpl in F. specialize (F H).
    eapply extends_db; [|exact F]. intros ev; destruct ev; simpl; tauto.
  - pose proof (@verify_only _ hash source s r s') as F.
    unfold verifyCredentialHashAtSource in F.
    unfold bind, try_catch, qDebug, emit, extern, pure_call, ret in F; simpl in F.
    rewrite Hq in F; simpl in F. exact (F H).
Qed.

End Verify.

(** ** The store under the statements of the source *)
Section Store.

Lemma nth_update_where n f t k :
  nth_error (update_where n f t) k =
  option_map (fun r => if name r =? n then f r else r) (nth_error t k).
Proof. unfold update_where. apply nth_error_map. Qed.

Lemma names_update_where n f t :
  (forall r, name (f r) = name r) ->
  map name (update_where n f t) = map name t.
Proof.
  intros Hf. unfold update_where. rewrite map_map. apply map_ext.
  intros r. destruct (name r =? n); [apply Hf | reflexivity].
Qed.

Lemma update_where_absent n f t :
  ~ In n (map name t) -> update_where n f t = t.
Proof.
  induction t as [|r t IH]; simpl; intros Hn; [reflexivity|].
  destruct (String.eqb_spec (name r) n) as [Heq|Hne].
  - exfalso. apply Hn. left. exact Heq.
  - f_equal. apply IH. intros H. apply Hn. right. exact H.
Qed.

Lemma pending_names_cons r t :
  pending_names (r :: t) =
  if pending r then name r :: pending_names t else pending_names t.
Proof. unfold pending_names, selectPending. simpl. destruct (pending r); reflexivity. Qed.

Lemma pending_names_sub t x : In x (pending_names t) -> In x (map name t).
Proof.
  unfold pending_names, selectPending. intros H.
  apply in_map_iff in H. destruct H as (r & <- & Hr).
  apply filter_In in Hr. apply in_map. apply Hr.
Qed.

Lemma NoDup_pending_names t : NoDup (map name t) -> NoDup (pending_names t).
Proof.
  induction t as [|r t IH]; simpl; intros H.
  - constructor.
  - inversion H as [|? ? Hn Ht]; subst. rewrite pending_names_cons.
    destruct (pending r); [|apply IH; exact Ht].
    constructor; [|apply IH; exact Ht].
    intros Hin. apply Hn. apply pending_names_sub. exact Hin.
Qed.

Lemma pending_names_SetUpdateTx n txid t :
  pending_names (runStmt (SetUpdateTx n txid) t) = pending_names t.
Proof.
  induction t as [|r t IH]; [reflexivity|].
  simpl in *. rewrite !pending_names_cons. fold (update_where n
    (fun r => mkRow (name r) (nym r) (cred r) (active r) (regData r) (Some txid)) t).
  rewrite IH. destruct (name r =? n); reflexivity.
Qed.





End Store.

(** ** The ledger against the store *)
Section Ledger.

Context {X : Externals}.

Lemma stored_true q t : stored true q t = runStmt q t.
Proof. reflexivity. Qed.

Lemma accepted_in new q ok :
  accepted new -> In (EvRunQuery q ok) new -> ok = true.
Proof.
  intros Ha Hin. destruct ok; [reflexivity|]. exfalso. eapply Ha. exact Hin.
Qed.

Lemma accepted_app n2 n1 : accepted (n2 ++ n1) -> accepted n2 /\ accepted n1.
Proof.
  intros Ha. split; intros q Hin; apply (Ha q); apply in_or_app; auto.
Qed.

(** [updateName] changes the store by at most one statement, the write of
    the transaction id, and only when it returns [true]. *)
Lemma updateName_store ny c s r s' :
  updateName ny c s = Some (r, s') ->
  db s' = db s \/
  exists nm value addr txid ok,
    r = Ok true /\
    In (EvQueryName NMC_NS c (Ok nm)) (trace s') /\
    In (EvExecute nm value addr (Ok txid)) (trace s') /\
    db s' = stored ok (SetUpdateTx (name_getName nm) txid) (db s).
Proof.
  intros E. unfold updateName, getNameForNym in E. run E.
  all: inversion E; subst; clear E; simpl; auto.
  right. do 5 eexists. split; [reflexivity|]. split; [|split; [|reflexivity]];
    simpl; eauto 10.
Qed.

Lemma updateName_pending ny c s r s' :
  updateName ny c s = Some (r, s') ->
  pending_names (db s') = pending_names (db s) /\ map name (db s') = map name (db s).
Proof.
  intros E.
  destruct (updateName_store _ _ _ E) as [->|(nm & v & a & tx & [|] & _ & _ & _ & ->)].
  - split; reflexivity.
  - rewrite stored_true. split; [apply pending_names_SetUpdateTx|].
    simpl. apply names_update_where. reflexivity.
  - split; reflexivity.
Qed.

Lemma unlock_store fuel s r s' : unlock fuel s = Some (r, s') -> db s' = db s.
Proof.
  intros E. eapply extends_db; [apply unlock_ev_no_query|].
  eapply unlock_only. exact E.
Qed.

(** The constructor's loop over records whose payloads all read back. *)
Lemma addPendingRegs_read recs : forall regs acc s,
  Forall2 (fun rec reg => reg_read (payload rec) = Ok reg) recs regs ->
  exists s',
    addPendingRegs recs acc s = Some (Ok (acc ++ regs), s') /\
    db s' = db s /\ ext s' = ext s.
Proof.
  induction recs as [|rec rest IH]; intros regs acc s H; inversion H; subst; simpl.
  - rewrite app_nil_r. eexists. repeat split.
  - unfold bind at 1. unfold pure_call.
    match goal with
    | Hr : reg_read (payload rec) = Ok ?reg, Hrest : Forall2 _ rest ?l |- _ =>
        unfold payload in Hr; rewrite Hr;
        destruct (IH l (acc ++ [reg])
                    (mkState (ext s) (db s)
                       (EvDebug [str "  "; str (reg_getName reg)] :: trace s)) Hrest)
          as (s' & E & D & Ex)
    end.
    exists s'. unfold bind, qDebug, emit. simpl. rewrite E, <- app_assoc.
    repeat split; assumption.
Qed.

Section Laws.

(** What the registry client guarantees about names: activating a
    registration does not rename it. *)
Hypothesis activated_name : forall i e i' e',
  reg_activate i e = (Ok i', e') -> reg_getName i' = reg_getName i.




End Laws.


End Ledger.
(** ** Rows that share a name *)
Section Rows.

Context {X : Externals}.

Lemma rows_SetUpdateTx n txid t k row :
  nth_error t k = Some row ->
  nth_error (runStmt (SetUpdateTx n txid) t) k = Some (with_tx n txid row).
Proof. intros H. simpl. rewrite nth_update_where, H. reflexivity. Qed.

Lemma rows_SetRegData n rd t k row :
  nth_error t k = Some row ->
  nth_error (runStmt (SetRegData n rd) t) k = Some (with_payload n rd row).
Proof. intros H. simpl. rewrite nth_update_where, H. reflexivity. Qed.

Lemma rows_SetFinished n t k row :
  nth_error t k = Some row ->
  nth_error (runStmt (SetFinished n) t) k = Some (marked_finished n row).
Proof. intros H. simpl. rewrite nth_update_where, H. reflexivity. Qed.

Lemma with_tx_same n txid row : name row <> n -> with_tx n txid row = row.
Proof.
  intros Hn. unfold with_tx. destruct (String.eqb_spec (name row) n); congruence.
Qed.

Lemma with_tx_keeps n txid row :
  name (with_tx n txid row) = name row /\
  active (with_tx n txid row) = active row /\
  regData (with_tx n txid row) = regData row.
Proof. unfold with_tx. destruct (name row =? n); repeat split. Qed.

Lemma marked_finished_same n row : name row <> n -> marked_finished n row = row.
Proof.
  intros Hn. unfold marked_finished. destruct (String.eqb_spec (name row) n); congruence.
Qed.

(** What [updateName] leaves in the store, with the calls behind it. *)
Lemma updateName_written ny c s r s' new :
  updateName ny c s = Some (r, s') ->
  trace s' = new ++ trace s ->
  db s' = db s \/
  exists nm value addr txid,
    In (EvQueryName NMC_NS c (Ok nm)) new /\
    In (EvExecute nm value addr (Ok txid)) new /\
    db s' = runStmt (SetUpdateTx (name_getName nm) txid) (db s).
Proof.
  intros E T. unfold updateName, getNameForNym in E. run E.
  all: inversion E; subst; clear E; cbn [db]; auto.
  simpl in T. know_new T.
  match goal with
  | |- context [stored ?ok _ _] => destruct ok; [|left; reflexivity]
  end.
  right. do 4 eexists. split; [|split; [|reflexivity]]; simpl; eauto 10.
Qed.

(** [updateName] goes through when every call it makes succeeds. *)
Lemma updateName_issued ny c s src e1 addr e2 nm e3 e4 value e5 txid e6 ok e7 :
  otapi_GetNym_SourceForID ny (ext s) = (Ok src, e1) ->
  nc_queryAddress src e1 = (Ok addr, e2) ->
  addr_isValid addr = true ->
  addr_isMine addr = true ->
  nc_queryName NMC_NS c e2 = (Ok nm, e3) ->
  nc_needWalletPassphrase e3 = (Ok false, e4) ->
  addr_signMessage addr c e4 = (Ok value, e5) ->
  upd_execute nm value addr e5 = (Ok txid, e6) ->
  db_runQuery (SetUpdateTx (name_getName nm) txid) (db s) e6 = (ok, e7) ->
  updateName ny c s =
    Some (Ok true,
          mkState e7 (stored ok (SetUpdateTx (name_getName nm) txid) (db s))
            (EvRunQuery (SetUpdateTx (name_getName nm) txid) ok ::
             EvExecute nm value addr (Ok txid) ::
             EvSignMessage addr c (Ok value) ::
             EvNeedWalletPassphrase (Ok false) ::
             EvQueryName NMC_NS c (Ok nm) ::
             EvQueryAddress src (Ok addr) ::
             EvGetNymSource ny (Ok src) ::
             EvUpdateName ny c :: trace s)).
Proof.
  intros Hsrc Haddr Hvalid Hmine Hname Hneed Hsign Hexec Hrun.
  unfold updateName, getNameForNym.
  unfold bind, try_catch, emit, extern, runQuery, ret. cbn [ext db trace].
  rewrite Hsrc. cbn [ext db trace]. rewrite Haddr. cbn [ext db trace].
  rewrite Hvalid, Hmine. cbn [negb orb ext db trace].
  rewrite Hname. cbn [ext db trace]. rewrite Hneed. cbn [ext db trace].
  rewrite Hsign. cbn [ext db trace]. rewrite Hexec. cbn [ext db trace].
  rewrite Hrun. reflexivity.
Qed.

(** C10: a statement of the program that names a row by [name] reaches
    every row of that name, and no row of another name.
    - The Finished step of a binding [i], when the store accepts its
      statement: every row named as [i] has [active = true] and no
      registration payload afterwards, whichever binding it was inserted
      for.  The step ends in [updateName] for the credentials it has looked
      up: if that has written a transaction id, every row of the name the
      registry has returned for those credentials carries it.  No other
      column of any row has changed; so when that name is the name of [i],
      or nothing was written, rows of another name are as before.
    - The activation step for [i], when the store accepts its statement:
      every row named as the activated registration carries its payload, and
      all other rows are as before.
    - [updateName], when all its calls succeed and the store accepts its
      statement: every row of the name the registry has returned carries the
      transaction id, and all other rows are as before. *)
Theorem statements_reach_every_row_of_the_name :
  (forall i s e1 e2,
      reg_isFinished i (ext s) = (Ok true, e1) ->
      db_runQuery (SetFinished (reg_getName i)) (db s) e1 = (true, e2) ->
      exists kept s' new (w : option (string * string)),
        tryBinding i s = Some (Ok kept, s') /\
        trace s' = new ++ trace s /\
        (forall n txid,
            w = Some (n, txid) ->
            exists c nm value addr,
              In (EvQueryName NMC_NS c (Ok nm)) new /\
              In (EvExecute nm value addr (Ok txid)) new /\
              n = name_getName nm) /\
        (forall k row,
            nth_error (db s) k = Some row ->
            nth_error (db s') k =
              Some (match w with
                    | Some (n, txid) => with_tx n txid (marked_finished (reg_getName i) row)
                    | None => marked_finished (reg_getName i) row
                    end)) /\
        ((forall n txid, w = Some (n, txid) -> n = reg_getName i) ->
         forall k row,
           nth_error (db s) k = Some row ->
           name row <> reg_getName i ->
           nth_error (db s') k = Some row)) /\
  (forall i s e1 e2 i' e3 e4,
      reg_isFinished i (ext s) = (Ok false, e1) ->
      reg_canActivate i e1 = (Ok true, e2) ->
      reg_activate i e2 = (Ok i', e3) ->
      db_runQuery (SetRegData (reg_getName i') (reg_write i')) (db s) e3 = (true, e4) ->
      exists s',
        tryBinding i s = Some (Ok (Some i'), s') /\
        forall k row,
          nth_error (db s) k = Some row ->
          nth_error (db s') k =
            Some (with_payload (reg_getName i') (reg_write i') row)) /\
  (forall ny c s src e1 addr e2 nm e3 e4 value e5 txid e6 e7,
      otapi_GetNym_SourceForID ny (ext s) = (Ok src, e1) ->
      nc_queryAddress src e1 = (Ok addr, e2) ->
      addr_isValid addr = true ->
      addr_isMine addr = true ->
      nc_queryName NMC_NS c e2 = (Ok nm, e3) ->
      nc_needWalletPassphrase e3 = (Ok false, e4) ->
      addr_signMessage addr c e4 = (Ok value, e5) ->
      upd_execute nm value addr e5 = (Ok txid, e6) ->
      db_runQuery (SetUpdateTx (name_getName nm) txid) (db s) e6 = (true, e7) ->
      exists s',
        updateName ny c s = Some (Ok true, s') /\
        forall k row,
          nth_error (db s) k = Some row ->
          nth_error (db s') k = Some (with_tx (name_getName nm) txid row)).
Proof.
  split; [|split].
  - intros i s e1 e2 Hfin Hrun.
    destruct (tryBinding_safe i s) as (kept & s' & E).
    destruct (@tryBinding_only _ _ _ _ _ E) as (new & T & _ & _).
    exists kept, s', new.
    assert (Hw : exists w : option (string * string),
               (forall n txid,
                   w = Some (n, txid) ->
                   exists c nm value addr,
                     In (EvQueryName NMC_NS c (Ok nm)) new /\
                     In (EvExecute nm value addr (Ok txid)) new /\
                     n = name_getName nm) /\
               db s' = match w with
                       | Some (n, txid) =>
                           runStmt (SetUpdateTx n txid)
                             (runStmt (SetFinished (reg_getName i)) (db s))
                       | None => runStmt (SetFinished (reg_getName i)) (db s)
                       end).
    { unfold tryBinding, processBinding, log_and_swallow in E.
      unfold bind, try_catch, qDebug, emit, extern, runQuery, queryOne, ret in E.
      rewrite Hfin in E. cbn [ext db trace] in E. rewrite Hrun in E.
      cbn [ext db trace] in E. rewrite stored_true in E.
      destruct (db_queryOne _) as [rec|e] eqn:Eq.
      - destruct (updateName (nym rec) (cred rec) _) as [[[b|e] su]|] eqn:Eu in E;
          [| |discriminate E].
        + inversion E; subst; clear E. cbn [db trace] in *.
          destruct (@updateName_only _ _ _ _ _ _ Eu) as (nu & Tu & _ & _).
          destruct (@updateName_written _ _ _ _ _ _ Eu Tu)
            as [D|(nm & v & a & tx & Hq & Hx & D)]; cbn [db trace] in *.
          * exists None. split; [intros n txid Hn; discriminate Hn | exact D].
          * exists (Some (name_getName nm, tx)). split; [|exact D].
            intros n txid Hn. inversion Hn; subst; clear Hn.
            rewrite Tu in T. know_new T.
            exists (cred rec), nm, v, a.
            split; [|split; [|reflexivity]];
              right; apply in_or_app; left; assumption.
        + assert (D : db s' = db su /\ exists line, trace s' = EvDebug line :: trace su).
          { destruct e; simpl in E; inversion E; subst;
              (split; [reflexivity | eexists; reflexivity]). }
          destruct D as (D & line & Tl). clear E.
          destruct (@updateName_only _ _ _ _ _ _ Eu) as (nu & Tu & _ & _).
          destruct (@updateName_written _ _ _ _ _ _ Eu Tu)
            as [D'|(nm & v & a & tx & Hq & Hx & D')]; cbn [db trace] in *.
          * exists None. split; [intros n txid Hn; discriminate Hn |].
            rewrite D. exact D'.
          * exists (Some (name_getName nm, tx)). split; [|rewrite D; exact D'].
            intros n txid Hn. inversion Hn; subst; clear Hn.
            rewrite Tl, Tu in T. know_new T.
            exists (cred rec), nm, v, a.
            split; [|split; [|reflexivity]];
              right; apply in_or_app; left; assumption.
      - exists None. split; [intros n txid Hn; discriminate Hn |].
        destruct e; simpl in E; inversion E; reflexivity. }
    destruct Hw as (w & Hw & D). exists w.
    split; [exact E|]. split; [exact T|]. split; [exact Hw|].
    assert (Hrows : forall k row,
               nth_error (db s) k = Some row ->
               nth_error (db s') k =
                 Some (match w with
                       | Some (n, txid) =>
                           with_tx n txid (marked_finished (reg_getName i) row)
                       | None => marked_finished (reg_getName i) row
                       end)).
    { intros k row Hrow. rewrite D. destruct w as [[n txid]|].
      - apply rows_SetUpdateTx. apply rows_SetFinished. exact Hrow.
      - apply rows_SetFinished. exact Hrow. }
    split; [exact Hrows|].
    intros Hsame k row Hrow Hne. rewrite (Hrows _ _ Hrow).
    destruct w as [[n txid]|].
    + rewrite (Hsame _ _ eq_refl), marked_finished_same by exact Hne.
      rewrite with_tx_same by exact Hne. reflexivity.
    + rewrite marked_finished_same by exact Hne. reflexivity.
  - intros i s e1 e2 i' e3 e4 Hfin Hcan Hact Hrun.
    unfold tryBinding, processBinding, log_and_swallow.
    unfold bind, try_catch, qDebug, emit, extern, runQuery, queryOne, ret.
    rewrite Hfin. cbn [ext db trace]. rewrite Hcan. cbn [ext db trace].
    rewrite Hact. cbn [ext db trace]. rewrite Hrun.
    eexists. split; [reflexivity|].
    intros k row Hrow. cbn [db]. rewrite stored_true. apply rows_SetRegData. exact Hrow.
  - intros ny c s src e1 addr e2 nm e3 e4 value e5 txid e6 e7
           Hsrc Haddr Hvalid Hmine Hname Hneed Hsign Hexec Hrun.
    eexists. split.
    + eapply updateName_issued; eassumption.
    + intros k row Hrow. cbn [db]. rewrite stored_true.
      apply rows_SetUpdateTx. exact Hrow.
Qed.

End Rows.

(** * Properties beyond the claims *)

(** ** The unlock step and the tick *)
Section MoreTick.

Context {X : Externals}.

(** How [unlock] can throw. *)
Lemma unlock_throws fuel : forall s e s' new,
  unlock fuel s = Some (Throw e, s') ->
  trace s' = new ++ trace s ->
  (exists pwd older,
      e = UnlockFailure "Wallet unlock was cancelled." /\
      new = EvDebug [str "Wallet unlock was cancelled."] :: EvDlgExec 0 pwd :: older) \/
  (exists older, new = EvNeedWalletPassphrase (Throw e) :: older).
Proof.
  induction fuel as [|fuel IH]; intros s e s' new E T; [discriminate|].
  cbn [unlock] in E.
  run E.
  all: try (inversion E; subst; clear E; simpl in T; know_new T).
  all: try solve [right; eexists; reflexivity].
  all: try solve [left; do 2 eexists; split; [reflexivity|];
                  match goal with
                  | H : (fst ?p =? 0)%Z = true |- _ =>
                      apply Z.eqb_eq in H; rewrite H; reflexivity
                  end].
  all: split_at E (unlock_only fuel _ E) T;
    destruct (IH _ _ _ _ E T0) as [(pwd & older & -> & ->)|(older & ->)];
    [left; do 2 eexists; split; reflexivity | right; eexists; reflexivity].
Qed.

(** X1: what [unlock] throws is either its own [UnlockFailure], right after
    a cancelled prompt, or the failure of the wallet-state query with which
    a round begins; a failure of the unlock primitive never leaves
    [unlock].  The store is as before. *)
Theorem unlock_throws_cancel_or_query_failure fuel s e s' new :
  unlock fuel s = Some (Throw e, s') ->
  trace s' = new ++ trace s ->
  db s' = db s /\
  ((exists pwd older,
       e = UnlockFailure "Wallet unlock was cancelled." /\
       new = EvDebug [str "Wallet unlock was cancelled."] :: EvDlgExec 0 pwd :: older) \/
   (exists older, new = EvNeedWalletPassphrase (Throw e) :: older)).
Proof.
  intros E T. split.
  - eapply unlock_store. exact E.
  - eapply unlock_throws; eassumption.
Qed.

(** X2: [unlock] returns normally only right after a call of the unlock
    primitive that returned or failed otherwise than by a wrong passphrase;
    the outcome of that call is the last thing it prints. *)
Theorem unlock_returns_after_primitive fuel : forall s s' new,
  unlock fuel s = Some (Ok tt, s') ->
  trace s' = new ++ trace s ->
  exists pwd res older,
    new = EvDebug (outcome_line res) :: EvWalletUnlock pwd res :: older /\
    forall what, res <> Throw (NmcUnlockFailure what).
Proof.
  induction fuel as [|fuel IH]; intros s s' new E T; [discriminate|].
  cbn [unlock] in E.
  run E.
  all: try (inversion E; subst; clear E; simpl in T; know_new T).
  all: try solve [
    match goal with
    | |- exists pwd res older, _ :: EvWalletUnlock ?p ?r :: ?o = _ /\ _ =>
        exists p, r, o; split; [reflexivity | intros w; discriminate]
    end].
  all: split_at E (unlock_only fuel _ E) T;
    destruct (IH _ _ _ E T0) as (pwd & res & older & -> & Hres);
    do 3 eexists; split; [reflexivity | exact Hres].
Qed.

Lemma passphrases_as_typed_app older ev0 pre :
  passphrases_as_typed (older ++ [ev0]) ->
  (forall pwd res, ev0 <> EvWalletUnlock pwd res) ->
  passphrases_as_typed pre ->
  passphrases_as_typed ((older ++ [ev0]) ++ pre).
Proof.
  intros Ho Hev Hp. induction older as [|ev older IH].
  - simpl. split; [|exact Hp].
    destruct ev0; try exact I. exfalso. eapply Hev. reflexivity.
  - destruct Ho as (Hhead & Hrest). split; [|apply IH; exact Hrest].
    destruct older as [|ev1 older]; exact Hhead.
Qed.

(** X3: the passphrase that reaches the wallet is the one the user typed:
    every call of the unlock primitive in a run of [unlock] comes right
    after a prompt that was not cancelled, with the passphrase typed there,
    or right after the wallet has said that it needs none, with the empty
    passphrase. *)
Theorem unlock_passes_typed_passphrase fuel : forall s r s' new,
  unlock fuel s = Some (r, s') ->
  trace s' = new ++ trace s ->
  passphrases_as_typed new /\
  exists older, new = older ++ [EvDebug [str "Trying to unlock the Namecoin wallet."]].
Proof.
  induction fuel as [|fuel IH]; intros s r s' new E T; [discriminate|].
  cbn [unlock] in E.
  run E.
  all: try (inversion E; subst; clear E; simpl in T; know_new T).
  all: try solve [
    split;
    [ simpl; repeat split; try reflexivity;
      match goal with
      | H : (_ =? 0)%Z = false |- _ => apply Z.eqb_neq in H; exact H
      end
    | match goal with
      | |- exists older, ?l = _ =>
          let pre := eval cbv [removelast] in (removelast l) in
          exists pre; reflexivity
      end ] ].
  all: split_at E (unlock_only fuel _ E) T;
    destruct (IH _ _ _ _ E T0) as (Hn & older & ->);
    (split;
     [ apply passphrases_as_typed_app;
       [ exact Hn | intros; discriminate
       | simpl; repeat split; try reflexivity;
         match goal with
         | H : (_ =? 0)%Z = false |- _ => apply Z.eqb_neq in H; exact H
         end ]
     | rewrite <- app_assoc;
       match goal with
       | |- exists o, ?a ++ ?l = _ =>
           let pre := eval cbv [removelast app] in (removelast l) in
           exists (a ++ pre); rewrite <- app_assoc; reflexivity
       end ]).
Qed.

(** The answer of the first loop: whether any readiness query said
    yes. *)
Lemma scanPending_answer entries : forall b s r s' new,
  scanPending entries b s = Some (Ok r, s') ->
  trace s' = new ++ trace s ->
  r = b || existsb ready_answer new.
Proof.
  induction entries as [|entry rest IH]; intros b s r s' new E T.
  - inversion E; subst. assert (new = []) by (eapply new_unique; [exact T | reflexivity]).
    subst. rewrite orb_false_r. reflexivity.
  - cbn [scanPending] in E.
    unfold bind, extern, ret in E.
    destruct (reg_canActivate entry (ext s)) as [[can|e] e1] eqn:Hc; [|discriminate].
    destruct can.
    + cbn in E. split_at E (@scanPending_only _ _ _ _ _ _ E) T.
      rewrite (IH _ _ _ _ _ E T0).
      rewrite existsb_app. simpl.
      destruct b, (existsb ready_answer n); reflexivity.
    + cbn in E.
      destruct (reg_isFinished entry e1) as [[fin|e] e2] eqn:Hf; [|discriminate].
      cbn in E. split_at E (@scanPending_only _ _ _ _ _ _ E) T.
      rewrite (IH _ _ _ _ _ E T0).
      rewrite existsb_app. simpl.
      destruct fin, b, (existsb ready_answer n); reflexivity.
Qed.

(** The queries of the first loop, in order. *)
Lemma scanPending_asks entries : forall b s r s' new,
  scanPending entries b s = Some (Ok r, s') ->
  trace s' = new ++ trace s ->
  asked_canActivate new = entries /\ asked_isFinished new = declined new.
Proof.
  induction entries as [|entry rest IH]; intros b s r s' new E T.
  - inversion E; subst. assert (new = []) by (eapply new_unique; [exact T | reflexivity]).
    subst. split; reflexivity.
  - cbn [scanPending] in E.
    unfold bind, extern, ret in E.
    destruct (reg_canActivate entry (ext s)) as [[can|e] e1] eqn:Hc; [|discriminate].
    destruct can.
    + cbn in E. split_at E (@scanPending_only _ _ _ _ _ _ E) T.
      destruct (IH _ _ _ _ _ E T0) as (Hc' & Hf').
      unfold asked_canActivate, asked_isFinished, declined in *.
      rewrite !rev_app_distr, !flat_map_app, Hc', Hf'. split; reflexivity.
    + cbn in E.
      destruct (reg_isFinished entry e1) as [[fin|e] e2] eqn:Hf; [|discriminate].
      cbn in E. split_at E (@scanPending_only _ _ _ _ _ _ E) T.
      destruct (IH _ _ _ _ _ E T0) as (Hc' & Hf').
      unfold asked_canActivate, asked_isFinished, declined in *.
      rewrite !rev_app_distr, !flat_map_app, Hc', Hf'. split; reflexivity.
Qed.

(** X4: the first loop of the tick, when it completes, has asked
    [canActivate] of every entry of the ledger, once each and in the order
    of the ledger, whatever the answers; it has asked [isFinished] of
    exactly the entries for which [canActivate] had answered false; it finds
    that the wallet is needed exactly when some readiness query has answered
    true; and it has done nothing else and left the store alone. *)
Theorem scanPending_visits_all entries s r s' new :
  scanPending entries false s = Some (Ok r, s') ->
  trace s' = new ++ trace s ->
  r = existsb ready_answer new /\
  asked_canActivate new = entries /\
  asked_isFinished new = declined new /\
  Forall ready_ev new /\ db s' = db s.
Proof.
  intros E T. pose proof (@scanPending_answer entries _ _ _ _ _ E T) as Hr.
  destruct (@scanPending_asks entries _ _ _ _ _ E T) as (Hc & Hf).
  destruct (@scanPending_only _ _ _ _ _ _ E) as (n & Tn & Fn & Dn).
  assert (n = new) by (eapply new_unique; eassumption). subst n.
  repeat split; try assumption.
  rewrite Dn. apply replay_no_query. eapply Forall_impl; [|exact Fn].
  intros ev; destruct ev; simpl; tauto.
Qed.

(** An exception of the first loop is the failure of its last readiness
    query. *)
Lemma scanPending_throws entries : forall b s e s' new,
  scanPending entries b s = Some (Throw e, s') ->
  trace s' = new ++ trace s ->
  exists i older,
    new = EvCanActivate i (Throw e) :: older \/ new = EvIsFinished i (Throw e) :: older.
Proof.
  induction entries as [|entry rest IH]; intros b s e s' new E T; [discriminate|].
  cbn [scanPending] in E. unfold bind, extern, ret in E.
  destruct (reg_canActivate entry (ext s)) as [[can|e0] e1] eqn:Hc.
  - destruct can; cbn in E.
    + split_at E (@scanPending_only _ _ _ _ _ _ E) T.
      destruct (IH _ _ _ _ _ E T0) as (i & older & [->| ->]);
        exists i; eexists; [left|right]; reflexivity.
    + destruct (reg_isFinished entry e1) as [[fin|e0] e2] eqn:Hf; cbn in E.
      * split_at E (@scanPending_only _ _ _ _ _ _ E) T.
        destruct (IH _ _ _ _ _ E T0) as (i & older & [->| ->]);
          exists i; eexists; [left|right]; reflexivity.
      * inversion E; subst; clear E. simpl in T. know_new T.
        exists entry. eexists. right. reflexivity.
  - inversion E; subst; clear E. simpl in T. know_new T.
    exists entry. eexists. left. reflexivity.
Qed.

(** X5: a tick in which no readiness query of the first loop answers true
    needs no fuel, never throws, and neither prompts the user nor calls the
    unlock primitive, in its second loop either. *)
Theorem tick_without_need_never_prompts pendingRegs s s1 :
  scanPending pendingRegs false
    (after_line [str "Namecoin update timer called."] s) = Some (Ok false, s1) ->
  exists pendingRegs' s',
    (forall fuel, timerUpdate fuel pendingRegs s = Some (Ok pendingRegs', s')) /\
    forall new, trace s' = new ++ trace s -> Forall no_prompt_ev new.
Proof.
  intros Hscan.
  destruct (advanceAll_safe pendingRegs
              (after_line [str "No operations necessary that need an unlocked wallet."] s1))
    as (regs' & s' & Ea).
  exists regs', s'. split.
  - intros fuel. unfold timerUpdate, tickPrefix, unlockIfNeeded.
    unfold bind at 1 2 3. unfold qDebug at 1, emit at 1.
    unfold after_line in Hscan. rewrite Hscan.
    unfold bind, qDebug, emit, ret. exact Ea.
  - intros new T.
    destruct (@scanPending_only _ _ _ _ _ _ Hscan) as (n1 & T1 & F1 & _).
    destruct (@advanceAll_only _ _ _ _ _ Ea) as (n2 & T2 & F2 & _).
    simpl in T1, T2. rewrite T2, T1 in T. know_new T.
    apply Forall_app. split.
    + eapply Forall_impl; [|exact F2]. intros ev; destruct ev; simpl; tauto.
    + constructor; [exact I|]. apply Forall_app. split.
      * eapply Forall_impl; [|exact F1]. intros ev; destruct ev; simpl; tauto.
      * repeat constructor.
Qed.

(** X6: an exception leaves the tick only from its part before the second
    loop, as the failure of a readiness query of the first loop or of the
    wallet-state query of the unlock step; the store is then as before the
    tick. *)
Theorem tick_throws_before_any_change fuel pendingRegs s e s' new :
  timerUpdate fuel pendingRegs s = Some (Throw e, s') ->
  trace s' = new ++ trace s ->
  db s' = db s /\ Forall prefix_ev new /\
  exists older,
    (exists i, new = EvCanActivate i (Throw e) :: older \/
               new = EvIsFinished i (Throw e) :: older) \/
    new = EvNeedWalletPassphrase (Throw e) :: older.
Proof.
  intros E T. unfold timerUpdate in E.
  apply bind_inv in E. destruct E as [(e' & E & He) | (go & s1 & E & E2)].
  - inversion He; subst e'; clear He.
    destruct (@tickPrefix_only _ _ _ _ _ _ E) as (n & Tn & Fn & Dn).
    assert (n = new) by (eapply new_unique; eassumption). subst n.
    split; [|split; [exact Fn|]].
    { rewrite Dn. apply replay_no_query.
      eapply Forall_impl; [apply prefix_ev_no_query | exact Fn]. }
    unfold tickPrefix, unlockIfNeeded, unlock_or_return in E.
    unfold bind at 1 2 in E. unfold qDebug at 1, emit at 1 in E.
    destruct (scanPending pendingRegs false _) as [[[need|e0] s0]|] eqn:Es;
      [| |discriminate].
    + destruct need.
      * run E. all: inversion E; subst; clear E.
        all: match goal with
             | Hu : unlock _ ?s2 = Some (Throw _, _) |- _ =>
                 destruct (@unlock_only _ _ _ _ _ Hu) as (nu & Tu & _ & _);
                 destruct (@unlock_throws _ _ _ _ _ Hu Tu)
                   as [(pwd & older & Hc & _)|(older & Ho)];
                 [discriminate Hc|]
             end.
        all: destruct (@scanPending_only _ _ _ _ _ _ Es) as (n1 & T1 & _ & _);
          simpl in T1, Tu; rewrite Ho in Tu; rewrite Tu, T1 in T; simpl in T;
          know_new T; eexists; right; reflexivity.
      * run E. inversion E.
    + inversion E; subst; clear E.
      destruct (@scanPending_only _ _ _ _ _ _ Es) as (n1 & T1 & _ & _).
      destruct (@scanPending_throws _ _ _ _ _ _ Es T1) as (i & older & Hh).
      simpl in T1. rewrite T1 in T.
      destruct Hh as [->| ->]; know_new T; eexists; left; exists i; [left|right];
        simpl; reflexivity.
  - destruct go.
    + destruct (advanceAll_safe pendingRegs s1) as (x & y & Ea).
      rewrite Ea in E2. discriminate.
    + inversion E2.
Qed.

End MoreTick.

(** ** Registration and the second loop *)
Section MoreLedger.

Context {X : Externals}.

(** The ways [startRegistration] can end. *)
Lemma startRegistration_cases fuel ny c pendingRegs s r s' new :
  startRegistration fuel ny c pendingRegs s = Some (r, s') ->
  trace s' = new ++ trace s ->
  (r = Ok pendingRegs /\ db s' = db s /\ Forall no_query new) \/
  (exists nm reg ok older,
      new = EvRunQuery (InsertName (name_getName nm) ny c (reg_write reg)) ok ::
            EvRegisterName nm (Ok reg) :: older /\
      In (EvQueryName NMC_NS c (Ok nm)) older /\
      Forall no_query older /\
      r = Ok (pendingRegs ++ [reg]) /\
      (db s' = if ok
               then db s ++ [mkRow (name_getName nm) ny c false (Some (reg_write reg)) None]
               else db s) /\
      exists e e', reg_registerName nm e = (Ok reg, e')).
Proof.
  intros E T.
  unfold startRegistration, getNameForNym, unlock_or_return, log_and_swallow in E.
  run E.
  all: inversion E; subst; clear E.
  all: try match goal with
           | Hu : unlock _ _ = Some (_, _) |- _ =>
               let D := fresh "D" in
               pose proof (unlock_store _ _ Hu) as D; simpl in D
           end.
  all: with_footprints T.
  all: try solve [
    left; simpl; repeat split; try assumption;
    repeat first
      [ apply Forall_nil
      | apply Forall_cons; [exact I|]
      | apply Forall_app; split
      | match goal with
        | F : Forall unlock_ev ?n |- Forall no_query ?n =>
            eapply Forall_impl; [apply unlock_ev_no_query | exact F]
        end ] ].
  right.
  match goal with
  | Hr : reg_registerName ?nm _ = (Ok ?reg, _),
    Hq : db_runQuery _ _ _ = (?ok, _) |- _ => exists nm, reg, ok
  end.
  eexists. split; [reflexivity|].
  split; [apply in_or_app; right; left; reflexivity|].
  split.
  { apply Forall_app. split.
    - match goal with
      | F : Forall unlock_ev ?n |- Forall no_query ?n =>
          eapply Forall_impl; [apply unlock_ev_no_query | exact F]
      end.
    - repeat constructor. }
  split; [reflexivity|]. split; [|eauto]. cbn [db]. rewrite D.
  match goal with |- stored ?ok _ _ = _ => destruct ok; reflexivity end.
Qed.

(** X7: [startRegistration] never throws, and ends in one of three ways.
    - Ledger and store are both as before and no statement was run.
    - The registration that the registry has returned for the queried
      name was appended to the ledger and the store has accepted the
      [INSERT]: exactly one row was appended to the table, with that name,
      the given nym and credentials, [active = false] and the registration
      as payload; existing rows of the name are no obstacle.
    - The registration was appended to the ledger although the store has
      rejected the [INSERT]: the table is as before, and the ledger holds a
      binding that has no row.
    The [INSERT] is the last thing the call does, right after the register
    operation.  More fuel does not change the outcome. *)
Theorem startRegistration_outcomes fuel ny c pendingRegs s r s' new :
  startRegistration fuel ny c pendingRegs s = Some (r, s') ->
  trace s' = new ++ trace s ->
  ((r = Ok pendingRegs /\ db s' = db s /\ Forall no_query new) \/
   (exists nm reg ok older,
       new = EvRunQuery (InsertName (name_getName nm) ny c (reg_write reg)) ok ::
             EvRegisterName nm (Ok reg) :: older /\
       In (EvQueryName NMC_NS c (Ok nm)) older /\
       Forall no_query older /\
       r = Ok (pendingRegs ++ [reg]) /\
       db s' = if ok
               then db s ++ [mkRow (name_getName nm) ny c false (Some (reg_write reg)) None]
               else db s)) /\
  forall fuel', fuel <= fuel' ->
    startRegistration fuel' ny c pendingRegs s = Some (r, s').
Proof.
  intros E T. split.
  - destruct (@startRegistration_cases _ _ _ _ _ _ _ _ E T)
      as [H|(nm & reg & ok & older & H1 & H2 & H3 & H4 & H5 & _)].
    + left. exact H.
    + right. exists nm, reg, ok, older. repeat split; assumption.
  - intros fuel' Hle. eapply startRegistration_fuel_enough; eassumption.
Qed.

(** What one turn of the second loop leaves at the entry's place. *)
Lemma tryBinding_outcome i s kept s' new :
  tryBinding i s = Some (Ok kept, s') ->
  trace s' = new ++ trace s ->
  turn_outcome new i kept.
Proof.
  intros E T. unfold tryBinding, processBinding, log_and_swallow in E.
  run E.
  all: inversion E; subst; clear E; simpl; auto.
  with_footprints T. right. simpl. auto.
Qed.

Lemma advanced_more new new' entries entries' :
  (forall ev, In ev new -> In ev new') ->
  advanced new entries entries' -> advanced new' entries entries'.
Proof.
  intros Hsub H. induction H.
  - constructor.
  - constructor. assumption.
  - constructor; [|assumption].
    match goal with H : _ \/ _ |- _ => destruct H as [H|H]; [left; exact H | right; auto] end.
Qed.

(** X8: the second loop of a tick adds no binding and keeps the order:
    the ledger it leaves comes from the ledger it found by dropping some
    entries and replacing others by what their activation in this run has
    returned. *)
Theorem advanceAll_drops_or_activates entries : forall s entries' s' new,
  advanceAll entries s = Some (Ok entries', s') ->
  trace s' = new ++ trace s ->
  advanced new entries entries' /\ length entries' <= length entries.
Proof.
  induction entries as [|i rest IH]; intros s entries' s' new E T.
  - inversion E; subst. split; [constructor | apply Nat.le_refl].
  - cbn [advanceAll] in E. unfold bind, ret in E.
    destruct (tryBinding i s) as [[[kept|e] s1]|] eqn:Et; try discriminate.
    destruct (advanceAll rest s1) as [[[rest'|e] s2]|] eqn:Er; try discriminate.
    inversion E; subst; clear E.
    destruct (@tryBinding_only _ _ _ _ _ Et) as (n1 & T1 & _ & _).
    destruct (@advanceAll_only _ _ _ _ _ Er) as (n2 & T2 & _ & _).
    assert (new = n2 ++ n1).
    { eapply new_unique; [exact T|]. rewrite T2, T1. apply app_assoc. }
    subst new.
    destruct (IH _ _ _ _ Er T2) as (Hadv & Hlen).
    pose proof (@tryBinding_outcome _ _ _ _ _ Et T1) as Hk.
    assert (Hadv' : advanced (n2 ++ n1) rest rest').
    { eapply advanced_more; [|exact Hadv]. intros ev H. apply in_or_app. left. exact H. }
    destruct kept as [i'|]; simpl in *.
    + split; [|lia]. constructor; [|exact Hadv'].
      destruct Hk as [Hk|Hk]; [left; exact Hk | right; apply in_or_app; right; exact Hk].
    + split; [|lia]. constructor. exact Hadv'.
Qed.

End MoreLedger.

(** Membership in a list of events given in parts, for an event that
    stands in one of the explicit parts. *)
Ltac in_tail :=
  solve [ repeat first [ left; reflexivity | apply in_or_app; right | right ] ].

(** ** One turn of the second loop, and the rows across a tick *)
Section MoreTurn.

Context {X : Externals}.

Lemma updateName_footprint ny c : only update_ev (updateName ny c).
Proof. unfold updateName, getNameForNym. only_tac. Qed.

(** X9: in one turn of the second loop, a binding that answers
    [isFinished] with true is not asked whether it can be activated and is
    not activated; and a turn in which the binding is neither found finished
    nor activated with success (it still waits, or one of the calls failed)
    keeps the binding as it is and runs no statement on the store. *)
Theorem turn_changes_only_finished_or_activated i s r s' new :
  tryBinding i s = Some (r, s') ->
  trace s' = new ++ trace s ->
  (In (EvIsFinished i (Ok true)) new ->
     forall ev, In ev new ->
       match ev with
       | EvCanActivate _ _ | EvActivate _ _ => False
       | _ => True
       end) /\
  (~ In (EvIsFinished i (Ok true)) new ->
   (forall i', ~ In (EvActivate i (Ok i')) new) ->
     r = Ok (Some i) /\ db s' = db s /\ Forall no_query new).
Proof.
  intros E T. unfold tryBinding, processBinding, log_and_swallow in E.
  run E.
  all: inversion E; subst; clear E.
  all: with_footprints T.
  all: try match goal with
           | Hu : updateName _ _ _ = Some (_, _), TR : trace _ = ?n ++ _ |- _ =>
               let n' := fresh "n" in
               let T' := fresh "T" in
               let F' := fresh "F" in
               destruct (@updateName_footprint _ _ _ _ _ Hu) as (n' & T' & F' & _);
               simpl in T'; rewrite TR in T'; apply app_inv_tail in T'; subst n'
           end.
  all: split;
    [ intros Hfin ev Hev
    | intros Hfin Hact ].
  all: try solve [exfalso; apply Hfin; simpl; in_tail].
  all: try solve [exfalso; eapply Hact; simpl; in_tail].
  all: try solve [in_parts Hfin; inversion Hfin].
  all: try solve [repeat split; repeat constructor].
  all: in_parts Hev; subst; try exact I.
  all: match goal with
       | F : Forall update_ev ?n, H : In ?ev ?n |- _ =>
           apply (proj1 (Forall_forall _ _) F) in H; destruct ev; simpl in H; tauto
       end.
Qed.

Lemma advanceAll_footprint entries : only tick_ev (advanceAll entries).
Proof.
  induction entries as [|i rest IH]; simpl.
  - only_tac.
  - unfold tryBinding, processBinding, log_and_swallow, updateName, getNameForNym.
    only_tac. apply IH.
Qed.

Lemma timerUpdate_footprint fuel pendingRegs :
  only tick_ev (timerUpdate fuel pendingRegs).
Proof.
  unfold timerUpdate. apply only_bind.
  - eapply only_weaken; [|apply tickPrefix_only].
    intros ev; destruct ev; simpl; tauto.
  - intros [|]; [apply advanceAll_footprint | apply only_ret].
Qed.

Lemma row_kept_refl row : row_kept row row.
Proof. unfold row_kept. tauto. Qed.

Lemma row_kept_trans r1 r2 r3 : row_kept r1 r2 -> row_kept r2 r3 -> row_kept r1 r3.
Proof.
  unfold row_kept. intros (K1 & A1 & U1) (K2 & A2 & U2).
  repeat split; [congruence | auto | auto].
Qed.

Lemma rows_kept_update n f t :
  (forall row, row_kept row (f row)) ->
  Forall2 row_kept t (update_where n f t).
Proof.
  intros Hf. induction t as [|row t IH]; simpl; constructor; [|exact IH].
  destruct (name row =? n); [apply Hf | apply row_kept_refl].
Qed.

Lemma rows_kept_trans t1 : forall t2 t3,
  Forall2 row_kept t1 t2 -> Forall2 row_kept t2 t3 -> Forall2 row_kept t1 t3.
Proof.
  induction t1 as [|r1 t1 IH]; intros t2 t3 H12 H23.
  - inversion H12; subst. inversion H23; subst. constructor.
  - inversion H12; subst. inversion H23; subst. constructor.
    + eapply row_kept_trans; eassumption.
    + eapply IH; eassumption.
Qed.

Lemma rows_kept_replay new t : Forall tick_ev new -> Forall2 row_kept t (replay new t).
Proof.
  induction 1 as [|ev new Hev _ IH]; simpl.
  - induction t; constructor; [apply row_kept_refl | assumption].
  - destruct ev; try exact IH.
    destruct ok; [|exact IH]. unfold stored.
    destruct q; simpl in Hev; try contradiction;
      (eapply rows_kept_trans; [exact IH|]); simpl; apply rows_kept_update;
      intros row; unfold row_kept, key_columns; simpl; repeat split; auto; discriminate.
Qed.

(** X10: a tick, however it ends, neither inserts nor deletes a row, and
    at every place of the store the row after the tick is the row of the same
    binding (name, nym and credentials as before), still active if it was
    active and still with an update transaction if it had one. *)
Theorem tick_keeps_rows fuel pendingRegs s r s' :
  timerUpdate fuel pendingRegs s = Some (r, s') ->
  Forall2 row_kept (db s) (db s') /\ length (db s') = length (db s).
Proof.
  intros E. destruct (timerUpdate_footprint _ _ _ E) as (new & _ & F & D).
  assert (H : Forall2 row_kept (db s) (db s')) by (rewrite D; apply rows_kept_replay; exact F).
  split; [exact H|]. symmetry. eapply Forall2_length. exact H.
Qed.

End MoreTurn.

(** ** More on the update operation *)
Section MoreUpdate.

Context {X : Externals}.

(** X11: [updateName] refuses without signing or executing anything, with
    [false] and the store untouched, when the address resolved from the
    nym's source is not valid or not the wallet's (the name is then not even
    queried), and when the wallet still needs its passphrase (no prompt and
    no unlock are attempted from here). *)
Theorem updateName_refusals ny c s r s' new :
  updateName ny c s = Some (r, s') ->
  trace s' = new ++ trace s ->
  (forall a addr,
      In (EvQueryAddress a (Ok addr)) new ->
      addr_isValid addr = false \/ addr_isMine addr = false ->
      r = Ok false /\ db s' = db s /\ Forall before_signing_ev new /\
      forall ns key res, ~ In (EvQueryName ns key res) new) /\
  (In (EvNeedWalletPassphrase (Ok true)) new ->
      r = Ok false /\ db s' = db s /\ Forall before_signing_ev new).
Proof.
  intros E T. unfold updateName, getNameForNym in E. run E.
  all: inversion E; subst; clear E; simpl in T; know_new T.
  all: split; [intros src0 addr0 Hin Hbad | intros Hin]; in_cases Hin.
  all: try solve [inversion Hin].
  all: try solve [
    inversion Hin; subst;
    match goal with
    | H : negb (addr_isValid ?x) || negb (addr_isMine ?x) = false |- _ =>
        apply orb_false_elim in H; destruct H as (H1 & H2);
        apply negb_false_iff in H1; apply negb_false_iff in H2;
        destruct Hbad; congruence
    end ].
  all: try solve [
    repeat split; try (repeat constructor);
    intros ns key res H; in_cases H ].
Qed.

(** X12: when [updateName] returns [true], this is all it has done, in
    order: resolved the nym's source, queried that address and found it
    valid and owned, queried the name for the credentials, found the wallet
    open, had that address sign the credential hash, executed the update of
    that name with the signature as value towards that address, and run the
    statement that writes the transaction id under the name.  It returns
    [true] whether or not the store has accepted that statement; the table
    has changed only if it has. *)
Theorem updateName_success_trace ny c s s' new :
  updateName ny c s = Some (Ok true, s') ->
  trace s' = new ++ trace s ->
  exists src addr nm value txid ok,
    new = [EvRunQuery (SetUpdateTx (name_getName nm) txid) ok;
           EvExecute nm value addr (Ok txid);
           EvSignMessage addr c (Ok value);
           EvNeedWalletPassphrase (Ok false);
           EvQueryName NMC_NS c (Ok nm);
           EvQueryAddress src (Ok addr);
           EvGetNymSource ny (Ok src);
           EvUpdateName ny c] /\
    addr_isValid addr = true /\ addr_isMine addr = true /\
    db s' = stored ok (SetUpdateTx (name_getName nm) txid) (db s).
Proof.
  intros E T. unfold updateName, getNameForNym in E. run E.
  all: inversion E; subst; clear E; simpl in T; know_new T.
  do 6 eexists. split; [reflexivity|].
  match goal with
  | H : negb (addr_isValid ?x) || negb (addr_isMine ?x) = false |- _ =>
      apply orb_false_elim in H; destruct H as (H1 & H2);
      apply negb_false_iff in H1; apply negb_false_iff in H2
  end.
  repeat split; assumption.
Qed.

(** X13: when [updateName] throws, the exception is the failure of the
    call it made last (and, for the update execution, not the missing
    private key, which it turns into [false]); nothing has been written to
    the store. *)
Theorem updateName_throws_unchanged ny c s e s' new :
  updateName ny c s = Some (Throw e, s') ->
  trace s' = new ++ trace s ->
  db s' = db s /\ Forall no_query new /\
  exists ev older,
    new = ev :: older /\
    match ev with
    | EvGetNymSource _ (Throw e') | EvQueryAddress _ (Throw e')
    | EvQueryName _ _ (Throw e') | EvNeedWalletPassphrase (Throw e')
    | EvSignMessage _ _ (Throw e') => e' = e
    | EvExecute _ _ _ (Throw e') => e' = e /\ forall what, e <> NoPrivateKey what
    | _ => False
    end.
Proof.
  intros E T. unfold updateName, getNameForNym in E. run E.
  all: inversion E; subst; clear E; simpl in T; know_new T.
  all: split; [reflexivity|]; split; [repeat constructor|].
  all: do 2 eexists; split; [reflexivity|]; simpl; try reflexivity.
  all: split; [reflexivity | intros w; discriminate].
Qed.

End MoreUpdate.

(** ** More on the verifier and on construction *)
Section MoreVerify.

Context {X : Externals}.

(** X14: for a name that exists, holds JSON with a string under
    ['nmcsig'] and is held by the claimed source, the verifier's answer is
    the answer of the signature check of that string against the hash, true
    or false; it has then made exactly two calls to the outside, the name
    query and the signature check. *)
Theorem verify_answers_signature_check hash source s nm e1 val addr b e2 :
  nc_queryName NMC_NS hash (ext s) = (Ok nm, e1) ->
  name_getJsonValue nm = Ok val ->
  json_isString (json_index val "nmcsig") = true ->
  name_getAddress nm = Ok addr ->
  addr_getAddress addr = source ->
  addr_verifySignature addr hash (json_asString (json_index val "nmcsig")) e1
    = (Ok b, e2) ->
  verifyCredentialHashAtSource hash source s =
    Some (Ok b,
          mkState e2 (db s)
            (EvVerifySignature addr hash (json_asString (json_index val "nmcsig")) (Ok b) ::
             EvQueryName NMC_NS hash (Ok nm) ::
             EvDebug [str "Verifying credential hash to Namecoin source: ";
                      str "  "; str hash; str "  "; str source] :: trace s)).
Proof.
  intros Hq Hv Hs Ha Hsrc Hsig.
  unfold verifyCredentialHashAtSource.
  unfold bind, try_catch, qDebug, emit, extern, pure_call, ret; simpl.
  rewrite Hq; simpl. rewrite Hv; simpl. rewrite Hs; simpl. rewrite Ha; simpl.
  rewrite Hsrc, String.eqb_refl; simpl. rewrite Hsig. reflexivity.
Qed.

(** X15: the name query stands before the [try] block of the verifier: when
    it fails, the verifier throws that failure, also when it is
    [NameNotFound]; and whatever the verifier throws is either that, or an
    exception other than [NameNotFound] and [JsonParseError] raised inside
    the block.  The store is untouched either way. *)
Theorem verify_throws hash source s :
  (forall e e1,
      nc_queryName NMC_NS hash (ext s) = (Throw e, e1) ->
      exists s', verifyCredentialHashAtSource hash source s = Some (Throw e, s') /\
                 db s' = db s) /\
  (forall e s',
      verifyCredentialHashAtSource hash source s = Some (Throw e, s') ->
      db s' = db s /\
      ((exists e1, nc_queryName NMC_NS hash (ext s) = (Throw e, e1)) \/
       verifier_catches e = false)).
Proof.
  split.
  - intros e e1 Hq. unfold verifyCredentialHashAtSource.
    unfold bind, try_catch, qDebug, emit, extern, pure_call, ret; simpl.
    rewrite Hq. simpl. eexists. split; reflexivity.
  - intros e s' E. split.
    + eapply extends_db; [|eapply verify_only; exact E].
      intros ev; destruct ev; simpl; tauto.
    + unfold verifyCredentialHashAtSource in E. run E.
      all: inversion E; subst; clear E; simpl; eauto.
Qed.

End MoreVerify.

Section MoreConstruction.

Context {X : Externals}.

(** The constructor's loop stops at the first payload that fails to read. *)
Lemma addPendingRegs_throws recs : forall regs bad rest e acc s,
  Forall2 (fun rec reg => reg_read (payload rec) = Ok reg) recs regs ->
  reg_read (payload bad) = Throw e ->
  exists s',
    addPendingRegs (recs ++ bad :: rest) acc s = Some (Throw e, s') /\
    db s' = db s /\ ext s' = ext s /\ length (trace s') = length recs + length (trace s).
Proof.
  induction recs as [|rec recs IH]; intros regs bad rest e acc s H Hbad;
    inversion H; subst; simpl.
  - unfold bind, pure_call. unfold payload in Hbad. rewrite Hbad.
    eexists. repeat split.
  - unfold bind at 1. unfold pure_call.
    match goal with
    | Hr : reg_read (payload rec) = Ok ?reg, Hrest : Forall2 _ recs ?l |- _ =>
        unfold payload in Hr; rewrite Hr;
        destruct (IH l bad rest e (acc ++ [reg])
                    (mkState (ext s) (db s)
                       (EvDebug [str "  "; str (reg_getName reg)] :: trace s))
                    Hrest Hbad)
          as (s' & E & D & Ex & L)
    end.
    exists s'. unfold bind, qDebug, emit. simpl. rewrite E.
    simpl in L. repeat split; try assumption. rewrite L. lia.
Qed.

(** X16: the constructor has no [try] block.  When the records handed
    over by the query all read back, the ledger is what they read back as,
    in the order handed over; when one of them does not, the exception of
    the first such record leaves the constructor, whatever the records after
    it hold, and no manager comes to be.  Either way the store is as
    before and nothing outside was called. *)
Theorem construction_reads_or_throws s :
  (forall regs,
      Forall2 (fun rec reg => reg_read (payload rec) = Ok reg)
              (db_queryMultiple (selectPending (db s))) regs ->
      exists s',
        NMC_NameManager_new s = Some (Ok regs, s') /\
        db s' = db s /\ ext s' = ext s) /\
  (forall recs regs bad rest e,
      db_queryMultiple (selectPending (db s)) = recs ++ bad :: rest ->
      Forall2 (fun rec reg => reg_read (payload rec) = Ok reg) recs regs ->
      reg_read (payload bad) = Throw e ->
      exists s',
        NMC_NameManager_new s = Some (Throw e, s') /\
        db s' = db s /\ ext s' = ext s).
Proof.
  split.
  - intros regs H.
    destruct (addPendingRegs_read []
                (mkState (ext s) (db s)
                   (EvDebug [str "Loading pending name registrations:"] :: trace s)) H)
      as (s' & E & D & Ex).
    exists s'. split; [|split; assumption].
    unfold NMC_NameManager_new, bind, qDebug, emit, queryMultiple. exact E.
  - intros recs regs bad rest e Hrecs H Hbad.
    destruct (@addPendingRegs_throws recs regs bad rest e []
                (mkState (ext s) (db s)
                   (EvDebug [str "Loading pending name registrations:"] :: trace s))
                H Hbad) as (s' & E & D & Ex & _).
    exists s'. split; [|split; assumption].
    unfold NMC_NameManager_new, bind, qDebug, emit, queryMultiple. cbn [ext db trace].
    rewrite Hrecs. exact E.
Qed.

Lemma Forall2_flip {A B} (P : A -> B -> Prop) l1 l2 :
  Forall2 P l1 l2 -> Forall2 (fun b a => P a b) l2 l1.
Proof. induction 1; constructor; assumption. Qed.

(** A ledger that mirrors the store is what the constructor loads from
    it. *)
Lemma mirrors_construct pendingRegs s :
  mirrors pendingRegs (db s) ->
  db_queryMultiple (selectPending (db s)) = selectPending (db s) ->
  exists s', NMC_NameManager_new s = Some (Ok pendingRegs, s').
Proof.
  intros Hm Hmult.
  assert (H : Forall2 (fun rec reg => reg_read (payload rec) = Ok reg)
                      (selectPending (db s)) pendingRegs).
  { apply Forall2_flip. unfold mirrors in Hm.
    eapply Forall2_impl; [|exact Hm]. intros reg row (Hr & _). exact Hr. }
  destruct (addPendingRegs_read []
              (mkState (ext s) (db s)
                 (EvDebug [str "Loading pending name registrations:"] :: trace s)) H)
    as (s' & E & _).
  exists s'. unfold NMC_NameManager_new, bind, qDebug, emit, queryMultiple.
  cbn [ext db trace]. rewrite Hmult. exact E.
Qed.

(** X17: what [startRegistration] stores, a restart reads back.  Given
    that the registry client registers under the name it is given and that a
    registration written out reads back as the same registration: if the
    ledger mirrors the store before a call of [startRegistration] and the
    store accepts every statement of the call, the ledger mirrors the store
    after it, and a manager constructed from that store (by a query that
    hands over the rows it selects, in the order of the table) starts with
    this very ledger. *)
Theorem registration_survives_restart fuel ny c pendingRegs s r s' new :
  (forall reg, reg_read (reg_write reg) = Ok reg) ->
  (forall nm e reg e',
      reg_registerName nm e = (Ok reg, e') -> reg_getName reg = name_getName nm) ->
  startRegistration fuel ny c pendingRegs s = Some (r, s') ->
  trace s' = new ++ trace s ->
  accepted new ->
  mirrors pendingRegs (db s) ->
  exists pendingRegs',
    r = Ok pendingRegs' /\ mirrors pendingRegs' (db s') /\
    forall s2,
      db s2 = db s' ->
      db_queryMultiple (selectPending (db s2)) = selectPending (db s2) ->
      exists s3, NMC_NameManager_new s2 = Some (Ok pendingRegs', s3).
Proof.
  intros Hround Hname E T Hacc Hm.
  assert (Hs : exists pendingRegs', r = Ok pendingRegs' /\ mirrors pendingRegs' (db s')).
  { destruct (@startRegistration_cases _ _ _ _ _ _ _ _ _ E T)
      as [(-> & -> & _)|(nm & reg & ok & older & -> & Hq & _ & -> & -> & Hreg)].
    - eexists. split; [reflexivity | exact Hm].
    - eexists. split; [reflexivity|].
      assert (Hok : ok = true) by (eapply accepted_in; [exact Hacc | left; reflexivity]).
      subst ok. unfold mirrors, selectPending in *. rewrite filter_app. simpl.
      apply Forall2_app; [exact Hm|]. constructor; [|constructor].
      unfold payload. simpl. split; [apply Hround|].
      destruct Hreg as (e & e' & Hreg). symmetry. eapply Hname. exact Hreg. }
  destruct Hs as (regs' & -> & Hregs). exists regs'.
  split; [reflexivity|]. split; [exact Hregs|].
  intros s2 Hdb Hmult. apply mirrors_construct; [rewrite Hdb; exact Hregs | exact Hmult].
Qed.

End MoreConstruction.

(** ** The ledger across a restart *)
Section Restart.

Lemma selectPending_update_where n f t :
  (forall r, pending (f r) = pending r) ->
  selectPending (update_where n f t) = update_where n f (selectPending t).
Proof.
  intros Hf. unfold selectPending, update_where.
  induction t as [|r t IH]; simpl; [reflexivity|].
  destruct (name r =? n) eqn:E.
  - rewrite Hf. destruct (pending r); simpl; rewrite ?E, IH; reflexivity.
  - destruct (pending r); simpl; rewrite ?E, IH; reflexivity.
Qed.

Lemma selectPending_SetFinished n t :
  selectPending (runStmt (SetFinished n) t) =
  filter (fun r => negb (name r =? n)) (selectPending t).
Proof.
  unfold selectPending. simpl. unfold update_where.
  induction t as [|r t IH]; simpl; [reflexivity|].
  destruct (name r =? n) eqn:E.
  - unfold pending at 1. simpl. destruct (pending r); simpl; rewrite ?E; exact IH.
  - destruct (pending r); simpl; rewrite ?E, IH; reflexivity.
Qed.

Lemma selectPending_SetRegData n rd t :
  NoDup (map name t) -> In n (pending_names t) ->
  selectPending (runStmt (SetRegData n rd) t) =
  update_where n
    (fun r => mkRow (name r) (nym r) (cred r) (active r) (Some rd) (updateTx r))
    (selectPending t).
Proof.
  induction t as [|r t IH]; [reflexivity|].
  intros Hnd Hin. inversion Hnd as [|? ? Hn Ht]; subst.
  rewrite pending_names_cons in Hin.
  unfold selectPending in *. simpl in *.
  destruct (String.eqb_spec (name r) n) as [Heq|Hne].
  - subst n.
    fold (update_where (name r)
            (fun r => mkRow (name r) (nym r) (cred r) (active r) (Some rd) (updateTx r)) t).
    rewrite (update_where_absent _ _ _ Hn).
    destruct (pending r) eqn:Hp.
    + unfold pending in Hp |- *. simpl. destruct (regData r); [|discriminate].
      rewrite Hp. simpl. rewrite String.eqb_refl. f_equal.
      symmetry. apply update_where_absent.
      intros H. apply Hn. apply pending_names_sub. exact H.
    + exfalso. apply Hn. apply pending_names_sub. exact Hin.
  - assert (Hin' : In n (pending_names t)).
    { destruct (pending r); [|exact Hin].
      destruct Hin as [Heq|Hin]; [congruence | exact Hin]. }
    rewrite (IH Ht Hin').
    destruct (pending r); simpl; [|reflexivity].
    destruct (String.eqb_spec (name r) n); [contradiction | reflexivity].
Qed.

Context {X : Externals}.

Lemma mirrors_names pendingRegs t : mirrors pendingRegs t -> ledger_matches pendingRegs t.
Proof.
  unfold mirrors, ledger_matches, pending_names.
  induction 1 as [|reg row regs rows (_ & Hn) _ IH]; simpl; [reflexivity|].
  rewrite Hn, IH. reflexivity.
Qed.

(** Rows rewritten in columns that the mirror does not look at. *)
Lemma mirrors_update_where regs rows n f :
  (forall r, payload (f r) = payload r /\ name (f r) = name r) ->
  Forall2 (fun reg row => reg_read (payload row) = Ok reg /\ name row = reg_getName reg)
          regs rows ->
  Forall2 (fun reg row => reg_read (payload row) = Ok reg /\ name row = reg_getName reg)
          regs (update_where n f rows).
Proof.
  intros Hf. induction 1 as [|reg row regs rows (Hr & Hn) _ IH]; simpl; constructor;
    [|exact IH].
  destruct (name row =? n); [|split; assumption].
  destruct (Hf row) as (-> & ->). split; assumption.
Qed.

Lemma filter_other_names n (rows : list Row) :
  ~ In n (map name rows) -> filter (fun r => negb (name r =? n)) rows = rows.
Proof.
  induction rows as [|r rows IH]; simpl; intros Hn; [reflexivity|].
  destruct (String.eqb_spec (name r) n) as [Heq|Hne]; simpl.
  - exfalso. apply Hn. left. exact Heq.
  - f_equal. apply IH. intros H. apply Hn. right. exact H.
Qed.

(** The finished entry and its row leave together. *)
Lemma mirrors_finish done i rest rows :
  Forall2 (fun reg row => reg_read (payload row) = Ok reg /\ name row = reg_getName reg)
          (done ++ i :: rest) rows ->
  NoDup (map name rows) ->
  Forall2 (fun reg row => reg_read (payload row) = Ok reg /\ name row = reg_getName reg)
          (done ++ rest)
          (filter (fun r => negb (name r =? reg_getName i)) rows).
Proof.
  intros H Hnd. apply Forall2_app_inv_l in H.
  destruct H as (l1 & l2' & H1 & H2 & ->).
  inversion H2 as [|? row ? l2 (Hr & Hn) H3]; subst.
  rewrite map_app in Hnd. simpl in Hnd.
  pose proof (NoDup_remove_2 _ _ _ Hnd) as Hnot. rewrite Hn in Hnot.
  rewrite filter_app. simpl. rewrite Hn, String.eqb_refl. simpl.
  rewrite !filter_other_names.
  - apply Forall2_app; assumption.
  - intros Hin. apply Hnot. apply in_or_app. right. exact Hin.
  - intros Hin. apply Hnot. apply in_or_app. left. exact Hin.
Qed.

(** The activated entry and the payload written for it. *)
Lemma mirrors_activate done i i' rest rows :
  reg_getName i' = reg_getName i ->
  reg_read (reg_write i') = Ok i' ->
  Forall2 (fun reg row => reg_read (payload row) = Ok reg /\ name row = reg_getName reg)
          (done ++ i :: rest) rows ->
  NoDup (map name rows) ->
  Forall2 (fun reg row => reg_read (payload row) = Ok reg /\ name row = reg_getName reg)
          (done ++ i' :: rest)
          (update_where (reg_getName i')
             (fun r => mkRow (name r) (nym r) (cred r) (active r)
                             (Some (reg_write i')) (updateTx r)) rows).
Proof.
  intros Hname Hround H Hnd. apply Forall2_app_inv_l in H.
  destruct H as (l1 & l2' & H1 & H2 & ->).
  inversion H2 as [|? row ? l2 (Hr & Hn) H3]; subst.
  rewrite map_app in Hnd. simpl in Hnd.
  pose proof (NoDup_remove_2 _ _ _ Hnd) as Hnot. rewrite Hn, <- Hname in Hnot.
  unfold update_where. rewrite map_app. simpl.
  rewrite Hn, <- Hname, String.eqb_refl.
  fold (update_where (reg_getName i')
          (fun r => mkRow (name r) (nym r) (cred r) (active r)
                          (Some (reg_write i')) (updateTx r)) l1).
  fold (update_where (reg_getName i')
          (fun r => mkRow (name r) (nym r) (cred r) (active r)
                          (Some (reg_write i')) (updateTx r)) l2).
  rewrite !update_where_absent.
  - apply Forall2_app; [exact H1|]. constructor; [|exact H3].
    unfold payload. simpl. split; [exact Hround | congruence].
  - intros Hin. apply Hnot. apply in_or_app. right. exact Hin.
  - intros Hin. apply Hnot. apply in_or_app. left. exact Hin.
Qed.

Section RestartLaws.

(** What the registry client guarantees: activation keeps the name, and a
    registration written out reads back as the same registration. *)
Hypothesis activation_keeps_name : forall i e i' e',
  reg_activate i e = (Ok i', e') -> reg_getName i' = reg_getName i.

Hypothesis read_after_write : forall reg, reg_read (reg_write reg) = Ok reg.

Lemma finished_mirrors done i rest s rec e b s0 :
  updateName (nym rec) (cred rec) (after_lookup i e true rec s) = Some (Ok b, s0) ->
  mirrors (done ++ i :: rest) (db s) ->
  NoDup (map name (db s)) ->
  mirrors (done ++ rest) (db s0) /\ map name (db s0) = map name (db s).
Proof.
  intros Eu Hm Hnd.
  destruct (updateName_pending _ _ _ Eu) as (_ & Hnames).
  unfold after_lookup in Hnames. cbn [db] in Hnames. rewrite stored_true in Hnames.
  split.
  - assert (Hfin : mirrors (done ++ rest) (runStmt (SetFinished (reg_getName i)) (db s))).
    { unfold mirrors in *. rewrite selectPending_SetFinished.
      apply (mirrors_finish done i rest); [exact Hm|].
      apply NoDup_pending_names in Hnd. exact Hnd. }
    destruct (updateName_store _ _ _ Eu)
      as [Hdb|(nm & v & a & tx & [|] & _ & _ & _ & Hdb)];
      unfold after_lookup in Hdb; cbn [db] in Hdb; rewrite ?stored_true in Hdb;
      rewrite Hdb; try exact Hfin.
    unfold mirrors in *. unfold runStmt at 1.
    rewrite selectPending_update_where by reflexivity.
    apply mirrors_update_where; [intros r; split; reflexivity | exact Hfin].
  - rewrite Hnames. simpl. apply names_update_where. reflexivity.
Qed.

Lemma tryBinding_mirrors done i rest s kept s1 new :
  tryBinding i s = Some (Ok kept, s1) ->
  trace s1 = new ++ trace s ->
  accepted new ->
  mirrors (done ++ i :: rest) (db s) ->
  NoDup (map name (db s)) ->
  fails_before_store i s ->
  mirrors (done ++ kept_list kept ++ rest) (db s1) /\
  map name (db s1) = map name (db s).
Proof.
  intros E T Hacc Hm Hnd Hfail. unfold tryBinding, try_catch in E.
  destruct (processBinding i s) as [[[k|e] sx]|] eqn:Ep; [| |discriminate].
  - inversion E; subst; clear E.
    unfold processBinding in Ep.
    unfold bind at 1 in Ep. unfold extern at 1 in Ep.
    destruct (reg_isFinished i (ext s)) as [[[|]|e] e1] eqn:Hfin; [| |discriminate Ep].
    + unfold bind at 1 in Ep. unfold qDebug at 1, emit at 1 in Ep.
      unfold bind at 1 in Ep. unfold runQuery at 1 in Ep. cbn [ext db trace] in Ep.
      destruct (db_runQuery (SetFinished (reg_getName i)) (db s) e1) as [ok e2] eqn:Hrun.
      unfold bind at 1 in Ep. unfold queryOne at 1 in Ep. cbn [ext db trace] in Ep.
      destruct (db_queryOne _) as [rec|e] eqn:Hq; [|discriminate Ep].
      unfold bind at 1 in Ep.
      destruct (updateName (nym rec) (cred rec) _) as [[[b|e] su]|] eqn:Eu;
        [|discriminate Ep|discriminate Ep].
      change (updateName (nym rec) (cred rec) (after_lookup i e2 ok rec s)
              = Some (Ok b, su)) in Eu.
      unfold bind, qDebug, emit, ret in Ep. inversion Ep; subst; clear Ep.
      cbn [db trace] in *.
      destruct (@updateName_only _ _ _ _ _ _ Eu) as (nu & Tu & _ & _).
      rewrite Tu in T. unfold after_lookup in T. cbn [trace] in T.
      know_new T.
      assert (Hok : ok = true).
      { eapply accepted_in; [exact Hacc|].
        right. apply in_or_app. right. simpl. auto. }
      subst ok. eapply finished_mirrors; eassumption.
    + unfold bind at 1 in Ep. unfold extern at 1 in Ep. cbn [ext db trace] in Ep.
      destruct (reg_canActivate i e1) as [[[|]|e] e2] eqn:Hcan; [| |discriminate Ep].
      * unfold bind at 1 in Ep. unfold qDebug at 1, emit at 1 in Ep.
        unfold bind at 1 in Ep. unfold extern at 1 in Ep. cbn [ext db trace] in Ep.
        destruct (reg_activate i e2) as [[i'|e] e3] eqn:Hact; [|discriminate Ep].
        unfold bind at 1 in Ep. unfold runQuery at 1 in Ep. cbn [ext db trace] in Ep.
        destruct (db_runQuery (SetRegData (reg_getName i') (reg_write i')) (db s) e3)
          as [ok e4] eqn:Hrun.
        unfold ret in Ep. inversion Ep; subst; clear Ep. cbn [db trace] in *.
        simpl in T. know_new T.
        assert (Hok : ok = true).
        { eapply accepted_in; [exact Hacc|]. simpl. auto. }
        subst ok. rewrite stored_true.
        pose proof (activation_keeps_name _ _ Hact) as Hname.
        assert (Hin : In (reg_getName i') (pending_names (db s))).
        { rewrite <- (mirrors_names Hm), Hname, map_app.
          apply in_or_app. right. left. reflexivity. }
        split.
        -- unfold mirrors in *.
           pose proof (@selectPending_SetRegData (reg_getName i') (reg_write i') _ Hnd Hin)
             as Hs.
           simpl in Hs. simpl. rewrite Hs.
           apply (@mirrors_activate done i i' rest _ Hname (read_after_write i') Hm).
           apply NoDup_pending_names in Hnd. exact Hnd.
        -- simpl. apply names_update_where. reflexivity.
      * unfold ret in Ep. inversion Ep; subst; clear Ep.
        split; [exact Hm | reflexivity].
  - assert (Ek : kept = Some i /\ db s1 = db sx).
    { destruct e; simpl in E; inversion E; subst; split; reflexivity. }
    destruct Ek as (-> & Hdb). unfold mirrors. rewrite Hdb, (Hfail _ _ Ep).
    split; [exact Hm | reflexivity].
Qed.

Lemma advanceAll_mirrors todo : forall done s todo' s' new,
  advanceAll todo s = Some (Ok todo', s') ->
  trace s' = new ++ trace s ->
  accepted new ->
  mirrors (done ++ todo) (db s) ->
  NoDup (map name (db s)) ->
  all_fail_before_store todo s ->
  mirrors (done ++ todo') (db s').
Proof.
  induction todo as [|i rest IH]; intros done s todo' s' new E T Hacc Hm Hnd Hfail.
  - inversion E; subst. exact Hm.
  - simpl in E. unfold bind in E.
    destruct (tryBinding i s) as [[[kept|e] s1]|] eqn:Et; try discriminate.
    destruct (advanceAll rest s1) as [[[rest'|e] s2]|] eqn:Er; try discriminate.
    destruct Hfail as (Hi & Hrest).
    destruct (@tryBinding_only _ _ _ _ _ Et) as (n1 & T1 & _ & _).
    destruct (@advanceAll_only _ _ _ _ _ Er) as (n2 & T2 & _ & _).
    assert (s2 = s') by (inversion E; reflexivity). subst s2.
    assert (Hnew : new = n2 ++ n1).
    { eapply new_unique; [exact T|]. rewrite T2, T1. apply app_assoc. }
    subst new. apply accepted_app in Hacc. destruct Hacc as (Hacc2 & Hacc1).
    destruct (tryBinding_mirrors _ _ Et T1 Hacc1 Hm Hnd Hi) as (Hm1 & Hn1).
    rewrite app_assoc in Hm1. rewrite <- Hn1 in Hnd.
    pose proof (IH _ _ _ _ _ Er T2 Hacc2 Hm1 Hnd (Hrest _ _ Et)) as Hm2.
    rewrite <- app_assoc in Hm2.
    inversion E; subst. destruct kept; exact Hm2.
Qed.

End RestartLaws.

(** X18: what a tick leaves in the store, a restart reads back.  Given
    that activation by the registry client keeps the name and that a
    registration written out reads back as the same registration: if the
    ledger mirrors the store before a tick, the store accepts every
    statement of the tick, the names in the store are pairwise distinct and
    no exception is raised in the second loop after a statement on the
    store, then the ledger mirrors the store after the tick, and a manager
    constructed from that store (by a query that hands over the rows it
    selects, in the order of the table) starts with this very ledger. *)
Theorem tick_survives_restart fuel pendingRegs s pendingRegs' s' new :
  (forall i e i' e',
      reg_activate i e = (Ok i', e') -> reg_getName i' = reg_getName i) ->
  (forall reg, reg_read (reg_write reg) = Ok reg) ->
  timerUpdate fuel pendingRegs s = Some (Ok pendingRegs', s') ->
  trace s' = new ++ trace s ->
  accepted new ->
  mirrors pendingRegs (db s) ->
  NoDup (map name (db s)) ->
  (forall s1, tickPrefix fuel pendingRegs s = Some (Ok true, s1) ->
              all_fail_before_store pendingRegs s1) ->
  mirrors pendingRegs' (db s') /\
  forall s2,
    db s2 = db s' ->
    db_queryMultiple (selectPending (db s2)) = selectPending (db s2) ->
    exists s3, NMC_NameManager_new s2 = Some (Ok pendingRegs', s3).
Proof.
  intros Hkeep Hround E T Hacc Hm Hnd Hfail.
  assert (H : mirrors pendingRegs' (db s')).
  { unfold timerUpdate in E.
    apply bind_inv in E. destruct E as [(e & E & Hr) | ([|] & s1 & E & E2)];
      [discriminate Hr | |].
    - destruct (@tickPrefix_only _ _ _ _ _ _ E) as (n1 & T1 & F1 & D1).
      assert (D : db s1 = db s).
      { rewrite D1. apply replay_no_query.
        eapply Forall_impl; [apply prefix_ev_no_query | exact F1]. }
      destruct (@advanceAll_only _ _ _ _ _ E2) as (n2 & T2 & _ & _).
      assert (Hnew : new = n2 ++ n1).
      { eapply new_unique; [exact T|]. rewrite T2, T1. apply app_assoc. }
      subst new. apply accepted_app in Hacc. destruct Hacc as (Hacc2 & _).
      rewrite <- D in Hm, Hnd.
      exact (@advanceAll_mirrors Hkeep Hround _ [] _ _ _ _ E2 T2 Hacc2 Hm Hnd
               (Hfail _ E)).
    - inversion E2; subst.
      pose proof (extends_db prefix_ev_no_query (@tickPrefix_only _ _ _ _ _ _ E)) as D.
      rewrite D. exact Hm. }
  split; [exact H|].
  intros s2 Hdb Hmult. apply mirrors_construct; [rewrite Hdb; exact H | exact Hmult].
Qed.

End Restart.
(** * The properties on sample runs *)
Module Runs.

Import Sim Scenario.

(** C7, as stated, fails: with a wallet that requires no secret, [unlock]
    still calls the underlying unlock primitive (with the empty secret). *)
Lemma unlock_calls_primitive_without_need :
  nc_needWalletPassphrase (Externals := sim) all_well = (Ok false, all_well) /\
  exists s',
    unlock (X := sim) 1 (start all_well []) = Some (Ok tt, s') /\
    In (EvWalletUnlock "" (Ok tt)) (trace s').
Proof.
  split; [reflexivity|].
  exists (state_of (unlock (X := sim) 1 (start all_well [])) (start all_well [])).
  split; [vm_compute; reflexivity|]. vm_compute. tauto.
Qed.

(** C7 (as amended) on a run with an open wallet. *)
Lemma unlock_no_secret_needed_witness :
  unlock (X := sim) 1 (start all_well []) =
    Some (Ok tt,
          mkState (X := sim) all_well []
            [EvDebug (outcome_line (Ok tt)); EvWalletUnlock "" (Ok tt);
             EvNeedWalletPassphrase (Ok false);
             EvDebug [str "Trying to unlock the Namecoin wallet."]]).
Proof.
  apply (proj1 (@unlock_no_secret_needed sim 0 (start all_well []) all_well all_well
                  (Ok tt) eq_refl eq_refl)).
  intros what. discriminate.
Defined.

(** C2: the code lets an exception out of the tick.  With one pending
    binding and a node that does not answer, the first loop of
    [timerUpdate] calls [canActivate] outside any [try] block and the
    transport error reaches the caller of the tick. *)
Theorem timerUpdate_throws_from_scan :
  exists s',
    timerUpdate (X := sim) 1 [abc_registered]
      (start node_down [row_for abc_registered "N1" "abc123"])
    = Some (Throw transport_error, s') /\
    trace s' = [EvCanActivate (X := sim) abc_registered (Throw transport_error);
                EvDebug [str "Namecoin update timer called."]].
Proof.
  exists (state_of (timerUpdate (X := sim) 1 [abc_registered]
                      (start node_down [row_for abc_registered "N1" "abc123"]))
                   (start node_down [])).
  split; vm_compute; reflexivity.
Qed.



(** C6, as stated, fails: after a transport failure of the unlock
    primitive the tick is not aborted; it goes on and activates the
    binding. *)
Lemma tick_goes_on_after_failed_unlock :
  exists s',
    tick_after_failed_unlock = Some (Ok [abc_activated], s') /\
    In (EvWalletUnlock "secret" (Throw transport_error)) (trace s') /\
    In (EvActivate (X := sim) abc_registered (Ok abc_activated)) (trace s') /\
    db s' = [row_for abc_activated "N1" "abc123"].
Proof.
  exists (state_of tick_after_failed_unlock (start unlock_unreachable [])).
  split; [vm_compute; reflexivity|]. vm_compute. repeat split; tauto.
Qed.

(** C6 (as amended) on runs.  A tick with one binding awaiting
    activation: the user tries a wrong passphrase, then gives the right
    one, and the unlock call fails in transport; the tick returns what its
    second loop returns from the state the failure has left.  A
    registration whose unlock call fails in transport at once: it goes on to
    the register operation. *)
Lemma unlock_failure_swallowed_witness :
  (exists pendingRegs' s',
      timerUpdate (X := sim) 2 [abc_registered] (start guess_then_unreachable one_waiting)
      = Some (Ok pendingRegs', s') /\
      advanceAll (X := sim) [abc_registered]
        (after_failed_unlock (X := sim) "secret" transport_error (ext second_asked)
           second_asked)
      = Some (Ok pendingRegs', s')) /\
  (exists pendingRegs' s' res e3,
      startRegistration (X := sim) 1 "N1" "abc123" [] (start unlock_unreachable [])
      = Some (Ok pendingRegs', s') /\
      reg_registerName (Externals := sim) (mkSName "ot/abc123" None) (ext named_asked)
      = (res, e3) /\
      In (EvRegisterName (X := sim) (mkSName "ot/abc123" None) res) (trace s')).
Proof.
  split.
  - apply (proj1 (proj2 (@unlock_failure_swallowed sim 1 2 second_round second_asked
                           "secret" transport_error (ext second_asked)
                           ltac:(vm_compute; reflexivity)
                           ltac:(vm_compute; reflexivity)
                           eq_refl ltac:(lia)))
             [abc_registered] (start guess_then_unreachable one_waiting) scanned).
    + vm_compute. reflexivity.
    + apply (@retried_S sim 0 first_round "guess" first_asked "wrong passphrase"
               (ext first_asked) second_round).
      * vm_compute. reflexivity.
      * vm_compute. reflexivity.
      * apply retried_O.
  - apply (proj2 (proj2 (@unlock_failure_swallowed sim 0 1 named named_asked
                           "secret" transport_error (ext named_asked)
                           ltac:(vm_compute; reflexivity)
                           ltac:(vm_compute; reflexivity)
                           eq_refl ltac:(lia)))
             "N1" "abc123" [] (start unlock_unreachable [])
             (mkSName "ot/abc123" None) unlock_unreachable).
    + reflexivity.
    + apply retried_O.
Defined.

(** C8 on a run: the row is active, the update fails for want of the
    private key. *)
Lemma updateName_no_private_key_witness :
  result_of update_without_key (Throw transport_error) = Ok false /\
  db (state_of update_without_key (start key_gone [])) =
    [mkRow "ot/abc123" "N1" "abc123" true None None] /\
  Forall no_query (trace (state_of update_without_key (start key_gone []))).
Proof.
  apply (@updateName_no_private_key sim "N1" "abc123"
           (start key_gone [mkRow "ot/abc123" "N1" "abc123" true None None])
           (result_of update_without_key (Throw transport_error))
           (state_of update_without_key (start key_gone []))
           (trace (state_of update_without_key (start key_gone [])))
           (mkSName "ot/abc123" None) (sign "addr1" "abc123")
           (mkSAddress "addr1" true true) "no private key").
  - vm_compute. reflexivity.
  - vm_compute. reflexivity.
  - vm_compute. tauto.
Defined.

(** C1: the code keeps a Finished binding whose update fails.  With one
    binding that is Finished and an update transaction that fails in
    transport, the tick marks the row active and clears its payload, enters
    [updateName] once, logs the failure, and leaves the binding in the
    ledger: the [erase] stands behind [updateName] in the [try] block.  The
    ledger then holds a binding for which the store has no pending row, so
    that a restart would not load it again. *)
Theorem finished_binding_stays_when_update_throws :
  exists s',
    timerUpdate (X := sim) 1 [abc_activated] (start update_unreachable one_activated)
    = Some (Ok [abc_activated], s') /\
    In (EvIsFinished (X := sim) abc_activated (Ok true)) (trace s') /\
    filter is_updateName (trace s') = [EvUpdateName (X := sim) "N1" "abc123"] /\
    In (EvExecute (X := sim) (mkSName "ot/abc123" None) (sign "addr1" "abc123")
          (mkSAddress "addr1" true true) (Throw transport_error)) (trace s') /\
    In (EvDebug (X := sim) [str "NMC RPC Error: "; str "connection refused"]) (trace s') /\
    db s' = [mkRow "ot/abc123" "N1" "abc123" true None None] /\
    selectPending (db s') = [].
Proof.
  exists (state_of (timerUpdate (X := sim) 1 [abc_activated]
                      (start update_unreachable one_activated))
                   (start update_unreachable [])).
  split; [vm_compute; reflexivity|]. vm_compute. repeat split; tauto.
Qed.


(** The scripted registry client keeps names through activation,
    registers under the name it is given, and reads back what it writes. *)
Lemma sim_activated_name : forall (i : SReg) (e : World) (i' : SReg) (e' : World),
  reg_activate (Externals := sim) i e = (Ok i', e') -> sr_name i' = sr_name i.
Proof. intros i e i' e' H. simpl in H. inversion H. reflexivity. Qed.

Lemma sim_registered_name : forall (nm : SName) (e : World) (reg : SReg) (e' : World),
  reg_registerName (Externals := sim) nm e = (Ok reg, e') -> sr_name reg = sn_name nm.
Proof. intros nm e reg e' H. simpl in H. inversion H. reflexivity. Qed.

Lemma sim_read_after_write : forall reg : SReg,
  reg_read (Externals := sim) (reg_write (Externals := sim) reg) = Ok reg.
Proof. intros [n [|]]; reflexivity. Qed.

(** No statement among the events was rejected, by inspection. *)
Ltac all_accepted :=
  let q := fresh "q" in
  let H := fresh "H" in
  intros q H; vm_compute in H;
  repeat (destruct H as [H|H]; [discriminate H|]); exact H.

(** In the second loop of this run nothing throws. *)
Ltac nothing_throws :=
  let s1 := fresh "s1" in
  let H := fresh "H" in
  intros s1 H; vm_compute in H; inversion H; subst s1; clear H;
  simpl;
  repeat match goal with
         | |- _ /\ _ => split
         | |- True => exact I
         | |- fails_before_store _ _ =>
             let e := fresh "e" in
             let s := fresh "s" in
             let E := fresh "E" in
             intros e s E; vm_compute in E; discriminate E
         | |- forall kept s, _ = Some (Ok kept, s) -> _ =>
             let k := fresh "kept" in
             let s := fresh "s" in
             let E := fresh "E" in
             intros k s E; vm_compute in E; inversion E; subst k s; clear E; simpl
         end.


(** C4 on runs against a registry that holds a signed entry for
    ["abc123"], an entry without a string signature and an entry whose
    value is not JSON: each rejection, one by one. *)
Lemma verify_rejections_and_acceptance_witness :
  (exists s', verifyCredentialHashAtSource (X := sim) "unknown" "addr1" (start registry [])
              = Some (Ok false, s')) /\
  (exists s', verifyCredentialHashAtSource (X := sim) "garbled" "addr1" (start registry [])
              = Some (Ok false, s')) /\
  (exists s', verifyCredentialHashAtSource (X := sim) "nosig" "addr1" (start registry [])
              = Some (Ok false, s')) /\
  (exists s', verifyCredentialHashAtSource (X := sim) "abc123" "addr2" (start registry [])
              = Some (Ok false, s')).
Proof.
  repeat split.
  - apply (proj1 (@verify_rejections_and_acceptance sim "unknown" "addr1"
                    (start registry []) (mkSName "ot/unknown" None) registry eq_refl)
             "name not found").
    reflexivity.
  - apply (proj1 (proj2 (@verify_rejections_and_acceptance sim "garbled" "addr1"
                    (start registry []) (mkSName "ot/garbled" (Some (None, "addr1")))
                    registry eq_refl))
             "no JSON").
    reflexivity.
  - apply (proj1 (proj2 (proj2 (@verify_rejections_and_acceptance sim "nosig" "addr1"
                    (start registry [])
                    (mkSName "ot/nosig" (Some (Some (JObj [("nmcsig", FNum 7)]), "addr1")))
                    registry eq_refl)))
             (JObj [("nmcsig", FNum 7)])); reflexivity.
  - apply (proj1 (proj2 (proj2 (proj2 (@verify_rejections_and_acceptance sim "abc123" "addr2"
                    (start registry [])
                    (mkSName "ot/abc123"
                       (Some (Some (JObj [("nmcsig", FStr (sign "addr1" "abc123"))]), "addr1")))
                    registry eq_refl))))
             (JObj [("nmcsig", FStr (sign "addr1" "abc123"))])
             (mkSAddress "addr1" true false)); try reflexivity.
    simpl. discriminate.
Defined.

(** C10 on runs.
    - The Finished step of the first of two bindings registered for the
      same credentials also marks the row inserted for the second.
    - The Finished step of a binding beside a binding of another name:
      the update goes through, the row of the binding is marked and carries
      the transaction id, the other row is as before.
    - The activation step of the first of two bindings registered for the
      same credentials also writes the payload into the row of the second.
    - [updateName] with two rows of the name writes the transaction id
      into both. *)
Lemma statements_reach_every_row_of_the_name_witness :
  (exists kept s' row',
      tryBinding (X := sim) abc_activated (start all_well twice_abc) = Some (Ok kept, s') /\
      nth_error (db s') 1 = Some row' /\
      name row' = "ot/abc123" /\ active row' = true /\ regData row' = None) /\
  (exists kept s',
      tryBinding (X := sim) abc_activated (start all_well finished_and_other)
      = Some (Ok kept, s') /\
      nth_error (db s') 0 =
        Some (mkRow "ot/abc123" "N1" "abc123" true None (Some "tx:ot/abc123")) /\
      nth_error (db s') 1 = Some (row_for def_registered "N1" "def456")) /\
  (exists s',
      tryBinding (X := sim) abc_registered (start all_well twice_waiting)
      = Some (Ok (Some abc_activated), s') /\
      nth_error (db s') 1 = Some (row_for abc_activated "N1" "abc123")) /\
  (exists s',
      updateName (X := sim) "N1" "abc123" (start all_well twice_active)
      = Some (Ok true, s') /\
      nth_error (db s') 1 =
        Some (mkRow "ot/abc123" "N1" "abc123" true None (Some "tx:ot/abc123"))).
Proof.
  split; [|split; [|split]].
  - destruct (proj1 (@statements_reach_every_row_of_the_name sim)
                abc_activated (start all_well twice_abc) all_well all_well
                eq_refl eq_refl)
      as (kept & s' & new & w & E & _ & _ & Hrows & _).
    exists kept, s'. eexists. split; [exact E|].
    split; [exact (Hrows 1 (row_for abc_registered "N1" "abc123") eq_refl)|].
    destruct w as [[n txid]|]; [|repeat split].
    destruct (with_tx_keeps n txid
                (marked_finished (reg_getName (Externals := sim) abc_activated)
                   (row_for abc_registered "N1" "abc123")))
      as (Hn & Ha & Hr).
    rewrite Hn, Ha, Hr. repeat split.
  - destruct (proj1 (@statements_reach_every_row_of_the_name sim)
                abc_activated (start all_well finished_and_other) all_well all_well
                eq_refl eq_refl)
      as (kept & s' & new & w & E & T & Hw & Hrows & Hother).
    exists kept, s'. split; [exact E|].
    vm_compute in E. inversion E; subst kept s'; clear E.
    simpl in T. rewrite app_nil_r in T. subst new.
    split; [reflexivity|].
    apply (Hother) with (row := row_for def_registered "N1" "def456");
      [|reflexivity|simpl; discriminate].
    intros n txid Hn. destruct (Hw n txid Hn) as (c & nm & v & a & Hq & _ & ->).
    simpl in Hq.
    repeat (destruct Hq as [Hq|Hq]; [try discriminate Hq|]);
      [inversion Hq; reflexivity | contradiction].
  - destruct (proj1 (proj2 (@statements_reach_every_row_of_the_name sim))
                abc_registered (start all_well twice_waiting) all_well all_well
                abc_activated all_well all_well eq_refl eq_refl eq_refl eq_refl)
      as (s' & E & Hrows).
    exists s'. split; [exact E|].
    exact (Hrows 1 (row_for abc_registered "N1" "abc123") eq_refl).
  - destruct (proj2 (proj2 (@statements_reach_every_row_of_the_name sim))
                "N1" "abc123" (start all_well twice_active)
                "addr1" all_well (mkSAddress "addr1" true true) all_well
                (mkSName "ot/abc123" None) all_well all_well
                (sign "addr1" "abc123") all_well "tx:ot/abc123" all_well all_well
                eq_refl eq_refl eq_refl eq_refl eq_refl eq_refl eq_refl eq_refl eq_refl)
      as (s' & E & Hrows).
    exists s'. split; [exact E|].
    exact (Hrows 1 (mkRow "ot/abc123" "N1" "abc123" true None None) eq_refl).
Defined.

End Runs.

(** * The further properties on sample runs *)
Module MoreRuns.

Import Sim Scenario MoreScenario.

(** X1 on a run: a wrong passphrase, then a cancelled prompt. *)
Lemma unlock_throws_cancel_or_query_failure_witness :
  db (state_of cancelled_unlock nowhere_state) = [].
Proof.
  apply (proj1 (@unlock_throws_cancel_or_query_failure sim 2 (start user_cancels [])
                  (UnlockFailure "Wallet unlock was cancelled.")
                  (state_of cancelled_unlock nowhere_state)
                  (trace (state_of cancelled_unlock nowhere_state))
                  ltac:(vm_compute; reflexivity) ltac:(vm_compute; reflexivity))).
Defined.

(** X2 on a run: a wrong passphrase, then the right one. *)
Lemma unlock_returns_after_primitive_witness :
  exists pwd res older,
    trace (state_of retried_unlock nowhere_state) =
      EvDebug (outcome_line res) :: EvWalletUnlock pwd res :: older /\
    forall what, res <> Throw (NmcUnlockFailure what).
Proof.
  apply (@unlock_returns_after_primitive sim 2 (start user_retries [])
           (state_of retried_unlock nowhere_state)
           (trace (state_of retried_unlock nowhere_state)));
    vm_compute; reflexivity.
Defined.

(** X3 on the same run. *)
Lemma unlock_passes_typed_passphrase_witness :
  passphrases_as_typed (trace (state_of retried_unlock nowhere_state)).
Proof.
  apply (proj1 (@unlock_passes_typed_passphrase sim 2 (start user_retries [])
                  (Ok tt)
                  (state_of retried_unlock nowhere_state)
                  (trace (state_of retried_unlock nowhere_state))
                  ltac:(vm_compute; reflexivity) ltac:(vm_compute; reflexivity))).
Defined.

(** X4 on a run over a finished binding and one awaiting activation. *)
Lemma scanPending_visits_all_witness :
  asked_canActivate (trace (state_of scan_of_two nowhere_state)) =
    [abc_activated; def_registered] /\
  asked_isFinished (trace (state_of scan_of_two nowhere_state)) = [abc_activated].
Proof.
  destruct (@scanPending_visits_all sim [abc_activated; def_registered]
              (start all_well two_waiting) true
              (state_of scan_of_two nowhere_state)
              (trace (state_of scan_of_two nowhere_state))
              ltac:(vm_compute; reflexivity) ltac:(vm_compute; reflexivity))
    as (_ & Hc & Hf & _).
  split; [exact Hc|]. rewrite Hf. vm_compute. reflexivity.
Defined.

(** X5 on a run: nothing is confirmed yet, the wallet is locked. *)
Lemma tick_without_need_never_prompts_witness :
  exists pendingRegs' s',
    (forall fuel,
        timerUpdate (X := sim) fuel [abc_registered; def_registered]
          (start nothing_confirmed two_waiting) = Some (Ok pendingRegs', s')) /\
    forall new,
      trace s' = new ++ trace (start nothing_confirmed two_waiting) ->
      Forall no_prompt_ev new.
Proof.
  apply (@tick_without_need_never_prompts sim [abc_registered; def_registered]
           (start nothing_confirmed two_waiting)
           (state_of quiet_scan nowhere_state)).
  vm_compute. reflexivity.
Defined.

(** X6 on a run: the node does not answer. *)
Lemma tick_throws_before_any_change_witness :
  db (state_of failed_tick nowhere_state) = [row_for abc_registered "N1" "abc123"].
Proof.
  apply (proj1 (@tick_throws_before_any_change sim 1 [abc_registered]
                  (start node_down [row_for abc_registered "N1" "abc123"])
                  transport_error
                  (state_of failed_tick nowhere_state)
                  (trace (state_of failed_tick nowhere_state))
                  ltac:(vm_compute; reflexivity) ltac:(vm_compute; reflexivity))).
Defined.

(** X7 on a run: the registry registers the name, the store rejects the
    row, and the ledger holds the binding all the same. *)
Lemma startRegistration_outcomes_witness :
  startRegistration (X := sim) 3 "N1" "abc123" [] (start store_refuses []) =
    Some (Ok [abc_registered], state_of unstored_registration nowhere_state) /\
  db (state_of unstored_registration nowhere_state) = [].
Proof.
  split; [|vm_compute; reflexivity].
  apply (proj2 (@startRegistration_outcomes sim 1 "N1" "abc123" []
                  (start store_refuses []) (Ok [abc_registered])
                  (state_of unstored_registration nowhere_state)
                  (trace (state_of unstored_registration nowhere_state))
                  ltac:(vm_compute; reflexivity) ltac:(vm_compute; reflexivity))
           3).
  lia.
Defined.

(** X8 on a run: the first entry is finished and leaves, the second is
    activated. *)
Lemma advanceAll_drops_or_activates_witness :
  advanced (trace (state_of second_loop nowhere_state))
    [abc_activated; def_registered] [mkSReg "ot/def456" true].
Proof.
  apply (proj1 (@advanceAll_drops_or_activates sim [abc_activated; def_registered]
                  (start all_well (one_activated ++ [row_for def_registered "N1" "def456"]))
                  [mkSReg "ot/def456" true]
                  (state_of second_loop nowhere_state)
                  (trace (state_of second_loop nowhere_state))
                  ltac:(vm_compute; reflexivity) ltac:(vm_compute; reflexivity))).
Defined.

(** X9 on a run: the binding still waits for confirmations. *)
Lemma turn_changes_only_finished_or_activated_witness :
  result_of waiting_turn (Throw transport_error) = Ok (Some abc_registered) /\
  db (state_of waiting_turn nowhere_state) = [row_for abc_registered "N1" "abc123"] /\
  Forall no_query (trace (state_of waiting_turn nowhere_state)).
Proof.
  apply (proj2 (@turn_changes_only_finished_or_activated sim abc_registered
                  (start nothing_confirmed [row_for abc_registered "N1" "abc123"])
                  (result_of waiting_turn (Throw transport_error))
                  (state_of waiting_turn nowhere_state)
                  (trace (state_of waiting_turn nowhere_state))
                  ltac:(vm_compute; reflexivity) ltac:(vm_compute; reflexivity))).
  - vm_compute. intuition discriminate.
  - intros i'. vm_compute. intuition discriminate.
Defined.

(** X10 on a run: a tick that activates two bindings. *)
Lemma tick_keeps_rows_witness :
  length (db (state_of activating_tick nowhere_state)) = 2.
Proof.
  apply (proj2 (@tick_keeps_rows sim 1 [abc_registered; def_registered]
                  (start all_well two_waiting)
                  (result_of activating_tick (Throw transport_error))
                  (state_of activating_tick nowhere_state)
                  ltac:(vm_compute; reflexivity))).
Defined.

(** X11 on a run: the nym's source is not an address of the wallet. *)
Lemma updateName_refusals_witness :
  result_of refused_update (Throw transport_error) = Ok false /\
  db (state_of refused_update nowhere_state) = [active_row] /\
  Forall before_signing_ev (trace (state_of refused_update nowhere_state)) /\
  forall ns key res,
    ~ In (EvQueryName ns key res) (trace (state_of refused_update nowhere_state)).
Proof.
  apply (proj1 (@updateName_refusals sim "N1" "abc123" (start not_mine [active_row])
                  (result_of refused_update (Throw transport_error))
                  (state_of refused_update nowhere_state)
                  (trace (state_of refused_update nowhere_state))
                  ltac:(vm_compute; reflexivity) ltac:(vm_compute; reflexivity))
           "addr1" (mkSAddress "addr1" true false)).
  - vm_compute. tauto.
  - right. reflexivity.
Defined.

(** X12 on a run: the update goes through. *)
Lemma updateName_success_trace_witness :
  exists src addr nm value txid ok,
    trace (state_of issued_update nowhere_state) =
      [EvRunQuery (X := sim) (SetUpdateTx (sn_name nm) txid) ok;
       EvExecute (X := sim) nm value addr (Ok txid);
       EvSignMessage (X := sim) addr "abc123" (Ok value);
       EvNeedWalletPassphrase (Ok false);
       EvQueryName (X := sim) NMC_NS "abc123" (Ok nm);
       EvQueryAddress (X := sim) src (Ok addr);
       EvGetNymSource "N1" (Ok src);
       EvUpdateName "N1" "abc123"] /\
    sa_valid addr = true /\ sa_mine addr = true /\
    db (state_of issued_update nowhere_state) =
      stored ok (SetUpdateTx (sn_name nm) txid) [active_row].
Proof.
  apply (@updateName_success_trace sim "N1" "abc123" (start all_well [active_row])
           (state_of issued_update nowhere_state)
           (trace (state_of issued_update nowhere_state)));
    vm_compute; reflexivity.
Defined.

(** X13 on a run: the update fails in transport. *)
Lemma updateName_throws_unchanged_witness :
  db (state_of failed_update nowhere_state) = [active_row].
Proof.
  apply (proj1 (@updateName_throws_unchanged sim "N1" "abc123"
                  (start update_unreachable [active_row]) transport_error
                  (state_of failed_update nowhere_state)
                  (trace (state_of failed_update nowhere_state))
                  ltac:(vm_compute; reflexivity) ltac:(vm_compute; reflexivity))).
Defined.

(** X14 on a run: the entry for ["abc123"] carries the signature of its
    holder. *)
Lemma verify_answers_signature_check_witness :
  exists s',
    verifyCredentialHashAtSource (X := sim) "abc123" "addr1" (start registry [])
    = Some (Ok true, s').
Proof.
  eexists.
  apply (@verify_answers_signature_check sim "abc123" "addr1" (start registry [])
           (mkSName "ot/abc123"
              (Some (Some (JObj [("nmcsig", FStr (sign "addr1" "abc123"))]), "addr1")))
           registry
           (JObj [("nmcsig", FStr (sign "addr1" "abc123"))])
           (mkSAddress "addr1" true false) true registry);
    reflexivity.
Defined.

(** X15 on a run: the registry cannot be reached. *)
Lemma verify_throws_witness :
  exists s',
    verifyCredentialHashAtSource (X := Offline.offline) "abc123" "addr1" Offline.nowhere
    = Some (Throw Offline.down, s') /\
    db s' = [].
Proof.
  apply (proj1 (@verify_throws Offline.offline "abc123" "addr1" Offline.nowhere)
           Offline.down tt).
  reflexivity.
Defined.

(** X16 on runs: a store whose pending payloads read back, and a store
    in which the second pending payload does not. *)
Lemma construction_reads_or_throws_witness :
  (exists s',
      NMC_NameManager_new (X := sim) (start all_well two_waiting)
      = Some (Ok [abc_registered; def_registered], s') /\
      db s' = two_waiting /\ ext s' = all_well) /\
  (exists s',
      NMC_NameManager_new (X := sim) (start all_well one_unreadable)
      = Some (Throw (JsonParseError "no registration"), s') /\
      db s' = one_unreadable /\ ext s' = all_well).
Proof.
  split.
  - apply (proj1 (@construction_reads_or_throws sim (start all_well two_waiting))).
    repeat constructor.
  - apply (proj2 (@construction_reads_or_throws sim (start all_well one_unreadable))
             [row_for abc_registered "N1" "abc123"] [abc_registered]
             (mkRow "ot/bad" "N1" "bad" false (Some "") None)
             [row_for def_registered "N1" "def456"]).
    + reflexivity.
    + repeat constructor.
    + reflexivity.
Defined.

(** X17 on a run: a first registration, then a restart. *)
Lemma registration_survives_restart_witness :
  exists s3,
    NMC_NameManager_new (X := sim)
      (start all_well (db (state_of first_registration nowhere_state)))
    = Some (Ok [abc_registered], s3).
Proof.
  destruct (@registration_survives_restart sim 1 "N1" "abc123" []
              (start all_well []) (Ok [abc_registered])
              (state_of first_registration nowhere_state)
              (trace (state_of first_registration nowhere_state))
              Runs.sim_read_after_write Runs.sim_registered_name
              ltac:(vm_compute; reflexivity) ltac:(vm_compute; reflexivity)
              ltac:(Runs.all_accepted) ltac:(constructor))
    as (regs' & Hr & _ & Hnew).
  inversion Hr; subst regs'. apply Hnew; reflexivity.
Defined.

(** X18 on a run: a tick that activates two bindings of distinct names,
    then a restart. *)
Lemma tick_survives_restart_witness :
  exists s3,
    NMC_NameManager_new (X := sim)
      (start all_well (db (state_of activating_tick nowhere_state)))
    = Some (Ok [abc_activated; mkSReg "ot/def456" true], s3).
Proof.
  apply (proj2 (@tick_survives_restart sim
                  1 [abc_registered; def_registered] (start all_well two_waiting)
                  [abc_activated; mkSReg "ot/def456" true]
                  (state_of activating_tick nowhere_state)
                  (trace (state_of activating_tick nowhere_state))
                  Runs.sim_activated_name Runs.sim_read_after_write
                  ltac:(vm_compute; reflexivity)
                  ltac:(vm_compute; reflexivity)
                  ltac:(Runs.all_accepted)
                  ltac:(vm_compute; repeat constructor)
                  ltac:(simpl; repeat constructor; simpl; intuition discriminate)
                  ltac:(Runs.nothing_throws)));
    reflexivity.
Defined.

(** X19 on a run: the finished binding comes first in the ledger, its
    update succeeds, and it leaves the ledger. *)
Lemma finished_binding_update_and_removal_witness :
  exists s3,
    advanceAll (X := sim) [abc_activated; def_registered]
      (start all_well finished_and_other)
    = Some (Ok [mkSReg "ot/def456" true], s3).
Proof.
  destruct (@finished_binding_update_and_removal sim [] abc_activated [def_registered]
              (start all_well finished_and_other)
              [] (start all_well finished_and_other)
              all_well true all_well eq_refl eq_refl eq_refl)
    as (kept & s2 & new & post' & s3 & Et & _ & Ep & Ea & _).
  vm_compute in Et. inversion Et; subst kept s2; clear Et.
  vm_compute in Ep. inversion Ep; subst post' s3; clear Ep.
  eexists. exact Ea.
Defined.

End MoreRuns.
